(** * Opcode activation and access-list gas metering of the EVM interpreter

    A shallow embedding of package [vm]: the feature activators of
    [eips.go] and the dynamic gas functions of [operations_acl.go].

    - 64-bit and 256-bit unsigned integers are [Z] with the wrap-around
      written out;
    - the objects a gas function or an execute function can reach (the
      state database, the contract, the stack and the memory) are
      gathered in a [Frame], threaded through a small state monad whose
      results are either a normal return or a Go panic;
    - a jump table is an array of pointers into a heap of operations.

    The last part embeds the parameter migration of the v9 upgrade
    handler, which turns EIP-5656 on for an existing chain. *)

From Stdlib Require Import ZArith String Ascii List Lia Bool.
From stdpp Require Import base tactics decidable option list sorting gmap strings.

Local Open Scope Z_scope.

(** ** Machine integers *)

Abbreviation uint64 := Z (only parsing).
Abbreviation uint256 := Z (only parsing).
Abbreviation Address := Z (only parsing).
Abbreviation Hash := Z (only parsing).

Definition wrap64 (z : Z) : uint64 := z mod 2 ^ 64.

(** Unchecked [uint64] arithmetic of Go: [x + y] and [x - y] wrap. *)
Definition add64 (x y : uint64) : uint64 := wrap64 (x + y).
Definition sub64 (x y : uint64) : uint64 := wrap64 (x - y).

(** Package [math] of go-ethereum: the sum (product) modulo [2^64] and
    whether the carry (high word) is non-zero. *)
Module math.
Definition MaxUint64 : uint64 := 2 ^ 64 - 1.

Definition SafeAdd (x y : uint64) : uint64 * bool :=
  (wrap64 (x + y), negb ((x + y) / 2 ^ 64 =? 0)).

Definition SafeMul (x y : uint64) : uint64 * bool :=
  (wrap64 (x * y), negb ((x * y) / 2 ^ 64 =? 0)).
End math.

(** Accessors of [uint256.Int]: the low 64 bits, the low 20 bytes, and
    all 32 bytes of a stack word. *)
Module uint256.
Definition Uint64 (z : uint256) : uint64 := z mod 2 ^ 64.
Definition Bytes20 (z : uint256) : Address := z mod 2 ^ 160.
Definition Bytes32 (z : uint256) : Hash := z mod 2 ^ 256.
End uint256.

(** Modelled from the spec: the protocol constants of the imported package
    [params], which is not part of the sources. The spec names them (warm
    baseline, cold cost, fresh-slot cost, reset cost, clearing refund,
    sentry threshold, the memory cost coefficients); the values are the
    ones of go-ethereum's [protocol_params.go]. *)
Module params.
Definition SstoreSentryGasEIP2200 : uint64 := 2300.
Definition SstoreSetGasEIP2200 : uint64 := 20000.
Definition SstoreResetGasEIP2200 : uint64 := 5000.
Definition SstoreClearsScheduleRefundEIP2200 : uint64 := 15000.
Definition ColdAccountAccessCostEIP2929 : uint64 := 2600.
Definition ColdSloadCostEIP2929 : uint64 := 2100.
Definition WarmStorageReadCostEIP2929 : uint64 := 100.
Definition TxAccessListStorageKeyGas : uint64 := 1900.
Definition SstoreClearsScheduleRefundEIP3529 : uint64 :=
  SstoreResetGasEIP2200 - ColdSloadCostEIP2929 + TxAccessListStorageKeyGas.
Definition SelfdestructGasEIP150 : uint64 := 5000.
Definition CreateBySelfdestructGas : uint64 := 25000.
Definition SelfdestructRefundGas : uint64 := 24000.
Definition SloadGasEIP1884 : uint64 := 800.
Definition BalanceGasEIP1884 : uint64 := 700.
Definition ExtcodeHashGasEIP1884 : uint64 := 700.
Definition SloadGasEIP2200 : uint64 := 800.
Definition MemoryGas : uint64 := 3.
Definition QuadCoeffDiv : uint64 := 512.
Definition StackLimit : Z := 1024.
End params.

(** ** Errors *)

Inductive error : Type :=
  | ErrGasUintOverflow
  | ErrOutOfGas
  | ErrMemoryOverflow
  | ErrMaxInitCodeSizeExceeded
  | errorString (msg : string).   (* errors.New and fmt.Errorf *)

Global Instance error_eq_dec : EqDecision error.
Proof. solve_decision. Defined.

(** ** The access-list ledger and the state database *)

(** Modelled from the spec: the [StateDB] behind the interface the gas
    functions call (its implementation is not part of the sources). The
    ledger holds a set of warm addresses, a set of warm (address, slot)
    pairs and a signed 64-bit refund accumulator; storage reads give the
    current and the committed value of a slot, the zero hash where nothing
    is stored. *)
Record StateDB : Type := mkStateDB {
  storage : gmap (Z * Z) Z;
  committed : gmap (Z * Z) Z;
  accessedAddresses : gset Z;
  accessedSlots : gset (Z * Z);
  refund : Z;
  balance : gmap Z Z;
  emptyAccounts : gset Z;
  suicided : gset Z
}.

Definition wrap_int64 (z : Z) : Z := (z + 2 ^ 63) mod 2 ^ 64 - 2 ^ 63.

Module statedb.
Definition GetState (a : Address) (k : Hash) (db : StateDB) : Hash :=
  default 0 (storage db !! (a, k)).

Definition GetCommittedState (a : Address) (k : Hash) (db : StateDB) : Hash :=
  default 0 (committed db !! (a, k)).

Definition AddressInAccessList (a : Address) (db : StateDB) : bool :=
  bool_decide (a ∈ accessedAddresses db).

(** Returns [(addressPresent, slotPresent)]. *)
Definition SlotInAccessList (a : Address) (k : Hash) (db : StateDB) : bool * bool :=
  (bool_decide (a ∈ accessedAddresses db), bool_decide ((a, k) ∈ accessedSlots db)).

Definition AddAddressToAccessList (a : Address) (db : StateDB) : StateDB :=
  mkStateDB (storage db) (committed db) ({[a]} ∪ accessedAddresses db)
            (accessedSlots db) (refund db) (balance db) (emptyAccounts db)
            (suicided db).

Definition AddSlotToAccessList (a : Address) (k : Hash) (db : StateDB) : StateDB :=
  mkStateDB (storage db) (committed db) (accessedAddresses db)
            ({[(a, k)]} ∪ accessedSlots db) (refund db) (balance db)
            (emptyAccounts db) (suicided db).

Definition setRefund (r : Z) (db : StateDB) : StateDB :=
  mkStateDB (storage db) (committed db) (accessedAddresses db)
            (accessedSlots db) r (balance db) (emptyAccounts db) (suicided db).

Definition AddRefund (gas : uint64) (db : StateDB) : StateDB :=
  setRefund (wrap_int64 (refund db + gas)) db.

Definition SubRefund (gas : uint64) (db : StateDB) : StateDB :=
  setRefund (wrap_int64 (refund db - gas)) db.

Definition Empty (a : Address) (db : StateDB) : bool :=
  bool_decide (a ∈ emptyAccounts db).

Definition GetBalance (a : Address) (db : StateDB) : Z :=
  default 0 (balance db !! a).

Definition HasSuicided (a : Address) (db : StateDB) : bool :=
  bool_decide (a ∈ suicided db).
End statedb.

(** ** Contract, memory, frame *)

(** Modelled from the spec: the contract of the running call (contract.go,
    not part of the sources), as far as the gas functions use it: its address
    and its remaining gas. *)
Record Contract : Type := mkContract {
  self : Address;     (* contract.Address() *)
  Gas : uint64
}.

(** Modelled from the spec: [Contract.UseGas] (contract.go): the charge is
    deducted when the remaining budget covers it, and refused otherwise. *)
Definition UseGas (gas : uint64) (c : Contract) : bool * Contract :=
  if Gas c <? gas then (false, c)
  else (true, mkContract (self c) (sub64 (Gas c) gas)).

(** Modelled from the spec: the memory of memory.go, a growable byte buffer
    together with the growth cost already paid for its high-water mark. *)
Record Memory : Type := mkMemory {
  store : list Z;           (* one byte per element *)
  lastGasCost : uint64
}.

Record EVM : Type := mkEVM {
  stateDB : StateDB;        (* evm.StateDB *)
  callGasTemp : uint64;
  ChainID : option Z;       (* evm.chainConfig.ChainID, a *big.Int: [None] is nil *)
  BaseFee : option Z        (* evm.Context.BaseFee, a *big.Int: [None] is nil *)
}.

(** Everything an opcode's gas function or execute function can reach.
    The head of [Stack] is the top of the stack. *)
Record Frame : Type := mkFrame {
  evm : EVM;
  contract : Contract;
  Stack : list uint256;
  memory : Memory
}.

Definition setDB (db : StateDB) (fr : Frame) : Frame :=
  mkFrame (mkEVM db (callGasTemp (evm fr)) (ChainID (evm fr)) (BaseFee (evm fr)))
          (contract fr) (Stack fr) (memory fr).
Definition setContract (c : Contract) (fr : Frame) : Frame :=
  mkFrame (evm fr) c (Stack fr) (memory fr).
Definition setStack (st : list uint256) (fr : Frame) : Frame :=
  mkFrame (evm fr) (contract fr) st (memory fr).
Definition setMemory (m : Memory) (fr : Frame) : Frame :=
  mkFrame (evm fr) (contract fr) (Stack fr) m.

(** ** The monad of opcode code: state passing over the frame, with panics *)

Inductive result (S A : Type) : Type :=
  | Done (a : A) (s : S)
  | Panic (msg : string).
Arguments Done {S A} a s.
Arguments Panic {S A} msg.

Definition St (S A : Type) : Type := S -> result S A.

Global Instance St_ret {S} : MRet (St S) := fun A a s => Done a s.
Global Instance St_bind {S} : MBind (St S) := fun A B f m s =>
  match m s with
  | Done a s' => f a s'
  | Panic msg => Panic msg
  end.

Definition panic {S A} (msg : string) : St S A := fun _ => Panic msg.
Definition gets {S A} (f : S -> A) : St S A := fun s => Done (f s) s.
Definition modify {S} (f : S -> S) : St S unit := fun s => Done tt (f s).

(** Code running against a call frame. *)
Abbreviation M := (St Frame).

Definition readDB {A} (f : StateDB -> A) : M A := gets (fun fr => f (stateDB (evm fr))).
Definition writeDB (f : StateDB -> StateDB) : M unit :=
  modify (fun fr => setDB (f (stateDB (evm fr))) fr).

(** Modelled from the spec: the stack accessors of stack.go (peek, pop and
    push of 256-bit words). [stack.Back(n)] is the n-th word from the top and
    [stack.Peek()] is [Back(0)]; indexing past the bottom is a run-time
    panic. *)
Definition Back (n : nat) : M uint256 := fun fr =>
  match Stack fr !! n with
  | Some w => Done w fr
  | None => Panic "index out of range"
  end.
Definition Peek : M uint256 := Back 0.

(** Modelled from the spec: [stack.Pop()] (stack.go). *)
Definition Pop : M uint256 := fun fr =>
  match Stack fr with
  | w :: st => Done w (setStack st fr)
  | [] => Panic "index out of range"
  end.

(** A dynamic gas function returns [(gas, err)]. *)
Definition gasFunc : Type := uint64 -> M (uint64 * option error).

(** ** operations_acl.go *)

Definition makeGasSStoreFunc (clearingRefund : uint64) : gasFunc := fun memorySize =>
  c ← gets contract;
  (* If we fail the minimum gas availability invariant, fail (0) *)
  if Gas c <=? params.SstoreSentryGasEIP2200
  then mret (0, Some (errorString "not enough gas for reentrancy sentry"))
  else
    y ← Back 1;
    x ← Peek;
    let slot := uint256.Bytes32 x in
    current ← readDB (statedb.GetState (self c) slot);
    (* Check slot presence in the access list *)
    present ← readDB (statedb.SlotInAccessList (self c) slot);
    cost ← (if negb (snd present)
            then
              writeDB (statedb.AddSlotToAccessList (self c) slot);;
              (if negb (fst present)
               then panic "impossible case: address was not present in access list during sstore op"
               else mret params.ColdSloadCostEIP2929)
            else mret 0);
    let value := uint256.Bytes32 y in
    if current =? value                                     (* noop (1) *)
    then mret (add64 cost params.WarmStorageReadCostEIP2929, None)
    else
      original ← readDB (statedb.GetCommittedState (self c) (uint256.Bytes32 x));
      if original =? current
      then
        if original =? 0                                    (* create slot (2.1.1) *)
        then mret (add64 cost params.SstoreSetGasEIP2200, None)
        else
          (if value =? 0                                    (* delete slot (2.1.2b) *)
           then writeDB (statedb.AddRefund clearingRefund)
           else mret tt);;
          (* write existing slot (2.1.2) *)
          mret (add64 cost (params.SstoreResetGasEIP2200 - params.ColdSloadCostEIP2929), None)
      else
        (if negb (original =? 0)
         then
           if current =? 0                                  (* recreate slot (2.2.1.1) *)
           then writeDB (statedb.SubRefund clearingRefund)
           else if value =? 0                               (* delete slot (2.2.1.2) *)
           then writeDB (statedb.AddRefund clearingRefund)
           else mret tt
         else mret tt);;
        (if original =? value
         then
           if original =? 0           (* reset to original inexistent slot (2.2.2.1) *)
           then writeDB (statedb.AddRefund
                           (params.SstoreSetGasEIP2200 - params.WarmStorageReadCostEIP2929))
           else                       (* reset to original existing slot (2.2.2.2) *)
             writeDB (statedb.AddRefund
                        ((params.SstoreResetGasEIP2200 - params.ColdSloadCostEIP2929)
                         - params.WarmStorageReadCostEIP2929))
         else mret tt);;
        (* dirty update (2.2) *)
        mret (add64 cost params.WarmStorageReadCostEIP2929, None).

(** [gasSLoadEIP2929] calculates dynamic gas for SLOAD according to EIP-2929. *)
Definition gasSLoadEIP2929 : gasFunc := fun memorySize =>
  c ← gets contract;
  loc ← Peek;
  let slot := uint256.Bytes32 loc in
  (* Check slot presence in the access list *)
  present ← readDB (statedb.SlotInAccessList (self c) slot);
  if negb (snd present)
  then
    writeDB (statedb.AddSlotToAccessList (self c) slot);;
    mret (params.ColdSloadCostEIP2929, None)
  else mret (params.WarmStorageReadCostEIP2929, None).

(** [gasExtCodeCopyEIP2929] implements extcodecopy according to EIP-2929.
    The pre-2929 calculator [gasExtCodeCopy] (gas_table.go) is an argument. *)
Definition gasExtCodeCopyEIP2929 (gasExtCodeCopy : gasFunc) : gasFunc := fun memorySize =>
  (* memory expansion first (dynamic part of pre-2929 implementation) *)
  r ← gasExtCodeCopy memorySize;
  match snd r with
  | Some err => mret (0, Some err)
  | None =>
      w ← Peek;
      let addr := uint256.Bytes20 w in
      warm ← readDB (statedb.AddressInAccessList addr);
      if negb warm
      then
        writeDB (statedb.AddAddressToAccessList addr);;
        (* We charge (cold-warm), since 'warm' is already charged as constantGas *)
        let s := math.SafeAdd (fst r)
                   (params.ColdAccountAccessCostEIP2929 - params.WarmStorageReadCostEIP2929) in
        if snd s then mret (0, Some ErrGasUintOverflow) else mret (fst s, None)
      else mret (fst r, None)
  end.

(** [gasEip2929AccountCheck]: used by extcodehash, extcodesize and balance. *)
Definition gasEip2929AccountCheck : gasFunc := fun memorySize =>
  w ← Peek;
  let addr := uint256.Bytes20 w in
  warm ← readDB (statedb.AddressInAccessList addr);
  if negb warm
  then
    writeDB (statedb.AddAddressToAccessList addr);;
    (* The warm storage read cost is already charged as constantGas *)
    mret (params.ColdAccountAccessCostEIP2929 - params.WarmStorageReadCostEIP2929, None)
  else mret (0, None).

(** [contract.UseGas] run against the frame's contract. *)
Definition useGas (gas : uint64) : M bool := fun fr =>
  let r := UseGas gas (contract fr) in Done (fst r) (setContract (snd r) fr).

Definition makeCallVariantGasCallEIP2929 (oldCalculator : gasFunc) : gasFunc :=
  fun memorySize =>
  w ← Back 1;
  let addr := uint256.Bytes20 w in
  (* Check slot presence in the access list *)
  warmAccess ← readDB (statedb.AddressInAccessList addr);
  (* The WarmStorageReadCostEIP2929 (100) is already deducted in the form of a
     constant cost, so the cost to charge for cold access, if any, is Cold - Warm *)
  let coldCost := params.ColdAccountAccessCostEIP2929 - params.WarmStorageReadCostEIP2929 in
  ok ← (if negb warmAccess
        then
          writeDB (statedb.AddAddressToAccessList addr);;
          (* Charge the remaining difference here already, to correctly
             calculate available gas for call *)
          useGas coldCost
        else mret true);
  if negb ok
  then mret (0, Some ErrOutOfGas)
  else
    (* Now call the old calculator *)
    r ← oldCalculator memorySize;
    if warmAccess || bool_decide (is_Some (snd r))
    then mret r
    else
      (* In case of a cold access, we temporarily add the cold charge back,
         and also add it to the returned gas. *)
      modify (fun fr => setContract (mkContract (self (contract fr))
                                       (add64 (Gas (contract fr)) coldCost)) fr);;
      mret (add64 (fst r) coldCost, None).

(** [gasSStoreEIP2929] and [gasSStoreEIP3529]: SSTORE under EIP-2929 and
    with the refund schedule of EIP-3529. *)
Definition gasSStoreEIP2929 : gasFunc :=
  makeGasSStoreFunc params.SstoreClearsScheduleRefundEIP2200.
Definition gasSStoreEIP3529 : gasFunc :=
  makeGasSStoreFunc params.SstoreClearsScheduleRefundEIP3529.

(** [makeSelfdestructGasFn] can create the selfdestruct dynamic gas function
    for EIP-2929 and EIP-2539. *)
Definition makeSelfdestructGasFn (refundsEnabled : bool) : gasFunc := fun memorySize =>
  c ← gets contract;
  w ← Peek;
  let address := uint256.Bytes20 w in
  warm ← readDB (statedb.AddressInAccessList address);
  gas ← (if negb warm
         then
           writeDB (statedb.AddAddressToAccessList address);;
           mret params.ColdAccountAccessCostEIP2929
         else mret 0);
  (* if empty and transfers value *)
  empty ← readDB (statedb.Empty address);
  bal ← readDB (statedb.GetBalance (self c));
  let gas := if empty && negb (bal =? 0)
             then add64 gas params.CreateBySelfdestructGas else gas in
  suicided ← readDB (statedb.HasSuicided (self c));
  (if refundsEnabled && negb suicided
   then writeDB (statedb.AddRefund params.SelfdestructRefundGas)
   else mret tt);;
  mret (gas, None).

Definition gasSelfdestructEIP2929 : gasFunc := makeSelfdestructGasFn true.
(** [gasSelfdestructEIP3529] implements the changes in EIP-2539 (no refunds). *)
Definition gasSelfdestructEIP3529 : gasFunc := makeSelfdestructGasFn false.

(** ** Memory *)

(** Modelled from the spec: [toWordSize] (common.go), the number of 32-byte
    words that hold [size] bytes. *)
Definition toWordSize (size : uint64) : uint64 :=
  if size >? math.MaxUint64 - 31 then math.MaxUint64 / 32 + 1
  else (size + 31) / 32.

(** Modelled from the spec: [memoryGasCost] of gas_table.go, which is not
    part of the sources. Memory grows in 32-byte words; reaching a size costs
    a quadratic component divided by a scaling constant plus a linear
    component per word; the charge is the difference to what was already paid
    for the high-water mark, and nothing for a size that is already covered.
    Sizes above [0x1FFFFFFFE0] would overflow the square and are refused. *)
Definition memoryGasCost (newMemSize : uint64) : M (uint64 * option error) :=
  if newMemSize =? 0 then mret (0, None)
  else if newMemSize >? 137438953440 (* 0x1FFFFFFFE0 *)
  then mret (0, Some ErrGasUintOverflow)
  else
    let newMemSizeWords := toWordSize newMemSize in
    let newMemSize := wrap64 (newMemSizeWords * 32) in
    mem ← gets memory;
    if newMemSize >? Z.of_nat (length (store mem))
    then
      let square := wrap64 (newMemSizeWords * newMemSizeWords) in
      let linCoef := wrap64 (newMemSizeWords * params.MemoryGas) in
      let quadCoef := square / params.QuadCoeffDiv in
      let newTotalFee := add64 linCoef quadCoef in
      let fee := sub64 newTotalFee (lastGasCost mem) in
      modify (setMemory (mkMemory (store mem) newTotalFee));;
      mret (fee, None)
    else mret (0, None).

(** [gasMCopy]: the dynamic gas of MCOPY. The diagnostic [fmt.Printf] calls
    write to standard output only and are left out. *)
Definition gasMCopy : gasFunc := fun memorySize =>
  w0 ← Back 0;
  let length := uint256.Uint64 w0 in
  w1 ← Back 1;
  let src := uint256.Uint64 w1 in
  w2 ← Back 2;
  let dst := uint256.Uint64 w2 in
  (* --- 1) Calculate memory expansion costs --- *)
  let '(endDst, overflow1) := math.SafeAdd dst length in
  let '(endSrc, overflow2) := math.SafeAdd src length in
  if overflow1 || overflow2
  then mret (0, Some ErrGasUintOverflow)
  else
    let maxEnd := if endSrc >? endDst then endSrc else endDst in
    r ← memoryGasCost maxEnd;
    match snd r with
    | Some err => mret (0, Some err)
    | None =>
        let memGas := fst r in
        (* --- 2) Calculate the per-byte copy cost --- *)
        let copyGasPerByte := 3 in
        let '(copyCost, overflow3) := math.SafeMul copyGasPerByte length in
        if overflow3
        then mret (0, Some ErrGasUintOverflow)
        else
          (* Combine memory expansion + copy cost *)
          let '(totalGas, overflow4) := math.SafeAdd memGas copyCost in
          if overflow4
          then mret (0, Some ErrGasUintOverflow)
          else mret (totalGas, None)
    end.

(** [gasCreateEIP3860]: the dormant initcode-size gas function. *)
Definition gasCreateEIP3860 : gasFunc := fun memorySize =>
  w0 ← Back 0;
  let size := uint256.Uint64 w0 in
  w1 ← Back 1;
  let offset := uint256.Uint64 w1 in
  let maxInitCodeSize := 49152 in
  if size >? maxInitCodeSize
  then mret (0, Some ErrMaxInitCodeSizeExceeded)
  else
    let '(requiredMemSize, overflow) := math.SafeAdd offset size in
    if overflow
    then mret (0, Some ErrGasUintOverflow)
    else
      r ← memoryGasCost requiredMemSize;
      match snd r with
      | Some err => mret (0, Some err)
      | None =>
          let memGas := fst r in
          let chunkCount := wrap64 (size + 31) / 32 in
          let '(overhead, overflow2) := math.SafeMul chunkCount 2 in
          if overflow2
          then mret (0, Some ErrGasUintOverflow)
          else
            let '(totalGas, overflow3) := math.SafeAdd memGas overhead in
            if overflow3
            then mret (0, Some ErrGasUintOverflow)
            else mret (totalGas, None)
      end.

(** [gasCreate2EIP3860] has the same body. *)
Definition gasCreate2EIP3860 : gasFunc := gasCreateEIP3860.

(** A byte slice of the memory's backing array: [nil], or the window
    [m.store[off : off+len]], which shares the array with the memory. *)
Inductive slice : Type :=
  | nilSlice
  | window (off len : nat).

(** The run-time's [memmove], which the builtin [copy] calls: bytes are moved
    one at a time inside one array, ascending when the destination starts at
    or below the source and descending otherwise. *)
Fixpoint moveForward (st : list Z) (d s n : nat) : list Z :=
  match n with
  | O => st
  | S n' => moveForward (<[d := default 0 (st !! s)]> st) (S d) (S s) n'
  end.

Fixpoint moveBackward (st : list Z) (d s n : nat) : list Z :=
  match n with
  | O => st
  | S n' => moveBackward (<[(d + n')%nat := default 0 (st !! (s + n')%nat)]> st) d s n'
  end.

Definition memmove (st : list Z) (d s n : nat) : list Z :=
  if (d <=? s)%nat then moveForward st d s n else moveBackward st d s n.

(** [copy(st[dstOff : dstOff+dstLen], src)]: copies [min(len(dst), len(src))]
    bytes. *)
Definition copy (st : list Z) (dstOff dstLen : nat) (src : slice) : list Z :=
  match src with
  | nilSlice => st
  | window srcOff srcLen => memmove st dstOff srcOff (Nat.min dstLen srcLen)
  end.

(** The conversion [int64(x)] of a [uint64]. *)
Definition int64 (x : uint64) : Z := wrap_int64 x.

(** Modelled from the spec: [Memory.Len] (memory.go, not part of the
    sources), the current size. *)
Definition Memory_Len (m : Memory) : Z := Z.of_nat (length (store m)).

(** Modelled from the spec: [Memory.Resize] (memory.go), resize-to: the
    buffer grows with zero bytes and never shrinks. Running out of memory on
    a huge allocation is not modelled. *)
Definition Memory_Resize (size : uint64) : M unit := fun fr =>
  let m := memory fr in
  if Memory_Len m <? size
  then Done tt (setMemory
                  (mkMemory (store m ++ replicate (Z.to_nat (size - Memory_Len m)) 0)
                            (lastGasCost m)) fr)
  else Done tt fr.

(** Modelled from the spec: [Memory.GetPtr] (memory.go), get-pointer: it
    hands out a window of the buffer itself, not a copy, and [nil] for an
    empty range or an offset at or past the end; slicing outside the buffer
    is a run-time panic. *)
Definition Memory_GetPtr (offset size : Z) : M slice := fun fr =>
  let m := memory fr in
  if size =? 0 then Done nilSlice fr
  else if Memory_Len m >? offset
  then
    let high := wrap_int64 (offset + size) in
    if (0 <=? offset) && (offset <=? high) && (high <=? Memory_Len m)
    then Done (window (Z.to_nat offset) (Z.to_nat size)) fr
    else Panic "slice bounds out of range"
  else Done nilSlice fr.

(** Modelled from the spec: [Memory.Set] (memory.go), write-range: [value]
    is copied to [offset] with the builtin [copy]; writing past the end of
    the buffer panics. *)
Definition Memory_Set (offset size : uint64) (value : slice) : M unit := fun fr =>
  let m := memory fr in
  if size >? 0
  then
    (* length of store may never be less than offset + size *)
    if add64 offset size >? Memory_Len m
    then Panic "invalid memory: store empty"
    else Done tt (setMemory
                    (mkMemory (copy (store m) (Z.to_nat offset) (Z.to_nat size) value)
                              (lastGasCost m)) fr)
  else Done tt fr.

(** ** eips.go: the execute functions *)

(** An execute function returns [(output, err)]; a [nil] output is []. *)
Definition executionFunc : Type := M (list Z * option error).

(** Modelled from the spec: [stack.Push] (stack.go) takes a pointer to a
    word and appends the word it points to; a nil pointer ([None]) is a
    run-time panic. [FromBig] is [uint256.FromBig], whose overflow flag the
    callers drop: the low 256 bits of the number, and nil for a nil
    [*big.Int]. *)
Definition Push (d : option uint256) : M unit :=
  match d with
  | Some w => modify (fun fr => setStack (w :: Stack fr) fr)
  | None => panic "invalid memory address or nil pointer dereference"
  end.
Definition FromBig (b : option Z) : option uint256 := (fun z => z mod 2 ^ 256) <$> b.

(** [opSelfBalance]. The state database hands out a balance for every
    address, never nil. *)
Definition opSelfBalance : executionFunc :=
  c ← gets contract;
  b ← readDB (statedb.GetBalance (self c));
  Push (FromBig (Some b));;
  mret ([], None).

(** [opChainID] implements CHAINID opcode. *)
Definition opChainID : executionFunc :=
  chainId ← gets (fun fr => ChainID (evm fr));
  Push (FromBig chainId);;
  mret ([], None).

(** [opBaseFee] implements BASEFEE opcode. *)
Definition opBaseFee : executionFunc :=
  baseFee ← gets (fun fr => BaseFee (evm fr));
  Push (FromBig baseFee);;
  mret ([], None).

(** [opPush0] implements the PUSH0 opcode: [new(uint256.Int)] is a pointer
    to a zero word. *)
Definition opPush0 : executionFunc :=
  Push (Some 0);;
  mret ([], None).

(** [opMCopy]. The diagnostic [fmt.Printf] calls are left out. *)
Definition opMCopy : executionFunc :=
  val ← Pop;                                   (* Pop length *)
  let length := uint256.Uint64 val in
  val2 ← Pop;                                  (* Pop dst *)
  let dst := uint256.Uint64 val2 in
  val3 ← Pop;                                  (* Pop src *)
  let src := uint256.Uint64 val3 in
  (* If length == 0, no copying needed; just return. *)
  if length =? 0
  then mret ([], None)
  else
    (* Compute end offsets to see how far we need memory to extend *)
    let '(endSrc, overflow1) := math.SafeAdd src length in
    let '(endDst, overflow2) := math.SafeAdd dst length in
    if overflow1 || overflow2
    then mret ([], Some ErrMemoryOverflow)
    else
      let maxEnd := if endDst >? endSrc then endDst else endSrc in
      Memory_Resize maxEnd;;
      (* Read from memory: get a pointer to the src segment *)
      srcData ← Memory_GetPtr (int64 src) (int64 length);
      match srcData with
      | nilSlice => mret ([], Some ErrMemoryOverflow)
      | _ =>
          (* Write to memory at [dst..dst+length] *)
          Memory_Set dst length srcData;;
          (* MCOPY pushes nothing onto stack. *)
          mret ([], None)
      end.

(** ** The jump table *)

(** Modelled from the spec: the opcode bytes (opcodes.go, not part of the
    sources) that the activators name. *)
Definition BALANCE : Z := 0x31.
Definition EXTCODESIZE : Z := 0x3b.
Definition EXTCODECOPY : Z := 0x3c.
Definition EXTCODEHASH : Z := 0x3f.
Definition CHAINID : Z := 0x46.
Definition SELFBALANCE : Z := 0x47.
Definition BASEFEE : Z := 0x48.
Definition SLOAD : Z := 0x54.
Definition SSTORE : Z := 0x55.
Definition MCOPY : Z := 0x5e.
Definition PUSH0 : Z := 0x5f.
Definition CALL : Z := 0xf1.
Definition CALLCODE : Z := 0xf2.
Definition DELEGATECALL : Z := 0xf4.
Definition STATICCALL : Z := 0xfa.
Definition SELFDESTRUCT : Z := 0xff.

(** Modelled from the spec: the operation descriptor of jump_table.go, with
    the fields that eips.go reads or writes: the action, the constant gas,
    the optional dynamic gas function and the stack bounds. A function field
    holds the function itself; [None] is Go's [nil]. *)
Record operation : Type := mkOperation {
  execute : option executionFunc;
  constantGas : uint64;
  dynamicGas : option gasFunc;
  minStack : Z;
  maxStack : Z
}.

(** Modelled from the spec: the step costs of gas.go. *)
Definition GasQuickStep : uint64 := 2.
Definition GasFastStep : uint64 := 5.

(** Modelled from the spec: [minStack] and [maxStack] of stack_table.go,
    the stack depth an operation requires and allows. *)
Definition minStack_ (pops push : Z) : Z := pops.
Definition maxStack_ (pop push : Z) : Z := params.StackLimit + pop - push.

(** Modelled from the spec: [JumpTable] is [[256]*operation] (jump_table.go):
    each entry is a pointer, here an address in a heap of operations, and a
    missing entry is a [nil] pointer. Two entries holding the same address
    share one operation. *)
Record JumpTable : Type := mkJumpTable {
  entries : gmap Z nat;
  heap : gmap nat operation
}.

(** What the interpreter sees when it dispatches on [op]: [*jt[op]]. *)
Definition descriptor (jt : JumpTable) (op : Z) : option operation :=
  p ← entries jt !! op; heap jt !! p.

(** Go keeps every pointer valid: no entry points outside the heap. *)
Definition wf_table (jt : JumpTable) : Prop :=
  forall op p, entries jt !! op = Some p -> is_Some (heap jt !! p).

(** An assignment to one field of an operation. *)
Inductive fieldWrite : Type :=
  | ConstantGas (v : uint64)
  | DynamicGas (g : gasFunc).

Definition assign (w : fieldWrite) (o : operation) : operation :=
  match w with
  | ConstantGas v => mkOperation (execute o) v (dynamicGas o) (minStack o) (maxStack o)
  | DynamicGas g => mkOperation (execute o) (constantGas o) (Some g) (minStack o) (maxStack o)
  end.

(** [jt[op].field = v]: a write through the pointer held at [op];
    dereferencing [nil] panics. *)
Definition setField (op : Z) (w : fieldWrite) : St JumpTable unit := fun jt =>
  match descriptor jt op, entries jt !! op with
  | Some o, Some p =>
      Done tt (mkJumpTable (entries jt) (<[p := assign w o]> (heap jt)))
  | _, _ => Panic "invalid memory address or nil pointer dereference"
  end.

Definition set_constantGas (op : Z) (v : uint64) : St JumpTable unit :=
  setField op (ConstantGas v).
Definition set_dynamicGas (op : Z) (g : gasFunc) : St JumpTable unit :=
  setField op (DynamicGas g).

(** [jt[op] = &operation{...}]: a new operation is allocated and the entry
    is pointed at it. *)
Definition install (op : Z) (o : operation) : St JumpTable unit := fun jt =>
  let p := fresh (dom (heap jt)) in
  Done tt (mkJumpTable (<[op := p]> (entries jt)) (<[p := o]> (heap jt))).

(** ** eips.go: the activators *)

(** The gas functions of gas_table.go that the activators install or wrap.
    They are not part of the sources and are taken as parameters. *)
Class LegacyGas : Type := {
  gasCall : gasFunc;
  gasCallCode : gasFunc;
  gasDelegateCall : gasFunc;
  gasStaticCall : gasFunc;
  gasExtCodeCopy : gasFunc;
  gasSStoreEIP2200 : gasFunc
}.

Section Activators.
Context `{LegacyGas}.

Definition gasCallEIP2929 : gasFunc := makeCallVariantGasCallEIP2929 gasCall.
Definition gasDelegateCallEIP2929 : gasFunc := makeCallVariantGasCallEIP2929 gasDelegateCall.
Definition gasStaticCallEIP2929 : gasFunc := makeCallVariantGasCallEIP2929 gasStaticCall.
Definition gasCallCodeEIP2929 : gasFunc := makeCallVariantGasCallEIP2929 gasCallCode.

(** [enable1884] applies EIP-1884 to the given jump table. *)
Definition enable1884 : St JumpTable unit :=
  (* Gas cost changes *)
  set_constantGas SLOAD params.SloadGasEIP1884;;
  set_constantGas BALANCE params.BalanceGasEIP1884;;
  set_constantGas EXTCODEHASH params.ExtcodeHashGasEIP1884;;
  (* New opcode *)
  install SELFBALANCE
    {| execute := Some opSelfBalance;
       constantGas := GasFastStep;
       dynamicGas := None;
       minStack := minStack_ 0 1;
       maxStack := maxStack_ 0 1 |}.

(** [enable1344] applies EIP-1344 (ChainID Opcode). *)
Definition enable1344 : St JumpTable unit :=
  install CHAINID
    {| execute := Some opChainID;
       constantGas := GasQuickStep;
       dynamicGas := None;
       minStack := minStack_ 0 1;
       maxStack := maxStack_ 0 1 |}.

(** [enable2200] applies EIP-2200 (Rebalance net-metered SSTORE). *)
Definition enable2200 : St JumpTable unit :=
  set_constantGas SLOAD params.SloadGasEIP2200;;
  set_dynamicGas SSTORE gasSStoreEIP2200.

(** [enable2929] enables "EIP-2929: Gas cost increases for state access
    opcodes". *)
Definition enable2929 : St JumpTable unit :=
  set_dynamicGas SSTORE gasSStoreEIP2929;;

  set_constantGas SLOAD 0;;
  set_dynamicGas SLOAD gasSLoadEIP2929;;

  set_constantGas EXTCODECOPY params.WarmStorageReadCostEIP2929;;
  set_dynamicGas EXTCODECOPY (gasExtCodeCopyEIP2929 gasExtCodeCopy);;

  set_constantGas EXTCODESIZE params.WarmStorageReadCostEIP2929;;
  set_dynamicGas EXTCODESIZE gasEip2929AccountCheck;;

  set_constantGas EXTCODEHASH params.WarmStorageReadCostEIP2929;;
  set_dynamicGas EXTCODEHASH gasEip2929AccountCheck;;

  set_constantGas BALANCE params.WarmStorageReadCostEIP2929;;
  set_dynamicGas BALANCE gasEip2929AccountCheck;;

  set_constantGas CALL params.WarmStorageReadCostEIP2929;;
  set_dynamicGas CALL gasCallEIP2929;;

  set_constantGas CALLCODE params.WarmStorageReadCostEIP2929;;
  set_dynamicGas CALLCODE gasCallCodeEIP2929;;

  set_constantGas STATICCALL params.WarmStorageReadCostEIP2929;;
  set_dynamicGas STATICCALL gasStaticCallEIP2929;;

  set_constantGas DELEGATECALL params.WarmStorageReadCostEIP2929;;
  set_dynamicGas DELEGATECALL gasDelegateCallEIP2929;;

  (* This was previously part of the dynamic cost, but we're using it as a
     constantGas factor here *)
  set_constantGas SELFDESTRUCT params.SelfdestructGasEIP150;;
  set_dynamicGas SELFDESTRUCT gasSelfdestructEIP2929.

(** [enable3529] enabled "EIP-3529: Reduction in refunds". *)
Definition enable3529 : St JumpTable unit :=
  set_dynamicGas SSTORE gasSStoreEIP3529;;
  set_dynamicGas SELFDESTRUCT gasSelfdestructEIP3529.

(** [enable3198] applies EIP-3198 (BASEFEE Opcode). *)
Definition enable3198 : St JumpTable unit :=
  install BASEFEE
    {| execute := Some opBaseFee;
       constantGas := GasQuickStep;
       dynamicGas := None;
       minStack := minStack_ 0 1;
       maxStack := maxStack_ 0 1 |}.

(** [enable3855] applies EIP-3855 (PUSH0 opcode). *)
Definition enable3855 : St JumpTable unit :=
  install PUSH0
    {| execute := Some opPush0;
       constantGas := GasQuickStep;
       dynamicGas := None;
       minStack := minStack_ 0 1;
       maxStack := maxStack_ 0 1 |}.

Definition enable5656 : St JumpTable unit :=
  install MCOPY
    {| execute := Some opMCopy;
       dynamicGas := Some gasMCopy;
       constantGas := 0;
       minStack := minStack_ 3 0;
       maxStack := maxStack_ 3 0 |}.

Definition activators : gmap string (St JumpTable unit) :=
  list_to_map
    [ ("ethereum_5656", enable5656);
      ("ethereum_3855", enable3855);
      ("ethereum_3529", enable3529);
      ("ethereum_3198", enable3198);
      ("ethereum_2929", enable2929);
      ("ethereum_2200", enable2200);
      ("ethereum_1884", enable1884);
      ("ethereum_1344", enable1344) ].

(** [EnableEIP] enables the given EIP on the config. This operation writes
    in-place. *)
Definition EnableEIP (eipName : string) : St JumpTable (option error) :=
  match activators !! eipName with
  | None => mret (Some (errorString ("undefined eip " ++ eipName)))
  | Some enablerFn => enablerFn;; mret None
  end.

(** [ExistsEipActivator] return true if the given EIP name is associated
    with an activator function. *)
Definition ExistsEipActivator (eipName : string) : bool :=
  bool_decide (is_Some (activators !! eipName)).
End Activators.

(** ** eips.go: [ValidateEIPName] *)

(** [strings.Split(s, sep)] for a separator of one byte: the pieces between
    the occurrences of [sep], one more than there are separators. *)
Fixpoint Split (s : string) (sep : ascii) : list string :=
  match s with
  | EmptyString => [EmptyString]
  | String c s' =>
      if Ascii.eqb c sep then EmptyString :: Split s' sep
      else match Split s' sep with
           | piece :: pieces => String c piece :: pieces
           | [] => [String c EmptyString]
           end
  end.

Inductive NumError : Type := ErrSyntax | ErrRange.

Definition isDigit (c : ascii) : bool :=
  (48 <=? Z.of_nat (nat_of_ascii c)) && (Z.of_nat (nat_of_ascii c) <=? 57).

Definition digitVal (c : ascii) : Z := Z.of_nat (nat_of_ascii c) - 48.

(** The digit loop of [strconv]: [n = n*10 + int(ch - '0')], failing on a
    byte that is not a decimal digit. *)
Fixpoint parseDigits (s : string) (n : Z) : option Z :=
  match s with
  | EmptyString => Some n
  | String ch s' => if isDigit ch then parseDigits s' (n * 10 + digitVal ch) else None
  end.

(** [strconv.Atoi] on a 64-bit platform: an optional sign, then at least one
    decimal digit and nothing else; a value outside [int] is a range error
    (with the nearest bound as value). *)
Definition Atoi (s : string) : Z * option NumError :=
  match s with
  | EmptyString => (0, Some ErrSyntax)
  | String c rest =>
      let neg := Ascii.eqb c "-" in
      let body := if neg || Ascii.eqb c "+" then rest else s in
      match body with
      | EmptyString => (0, Some ErrSyntax)
      | _ =>
          match parseDigits body 0 with
          | None => (0, Some ErrSyntax)
          | Some n =>
              if neg
              then if 2 ^ 63 <? n then (- 2 ^ 63, Some ErrRange) else (- n, None)
              else if 2 ^ 63 <=? n then (2 ^ 63 - 1, Some ErrRange) else (n, None)
          end
      end
  end.

(** [ValidateEIPName] checks if an EIP name is valid or not. The allowed name
    structure is a string that can be represented as "chainName" + "_" + "int". *)
Definition ValidateEIPName (eipName : string) : option error :=
  let eipSplit := Split eipName "_" in
  if negb (length eipSplit =? 2)%nat
  then Some (errorString "eip name does not conform to structure 'chainName_Number'")
  else
    match snd (Atoi (nth 1 eipSplit EmptyString)) with
    | Some _ => Some (errorString "eip number should be convertible to int")
    | None => None
    end.

(** * Specification-side definitions *)

(** ** The name structure, in the words of the specification *)

Definition chars (s : string) : list ascii := list_ascii_of_string s.

Definition decimalValue (digits : string) : Z :=
  fold_left (fun n c => n * 10 + digitVal c) (chars digits) 0.

(** A decimal [int]: an optional sign, one or more digits, a value that a
    signed 64-bit integer holds. *)
Definition intLiteral (num : string) : Prop :=
  exists sign digits,
    num = (sign ++ digits)%string /\
    (sign = "" \/ sign = "+" \/ sign = "-")%string /\
    digits <> EmptyString /\
    Forall (fun c => isDigit c = true) (chars digits) /\
    - 2 ^ 63 <= (if String.eqb sign "-" then - decimalValue digits else decimalValue digits)
      <= 2 ^ 63 - 1.

(** namespace, underscore, integer: the namespace is any text without an
    underscore. *)
Definition nameStructure (eipName : string) : Prop :=
  exists namespace num,
    eipName = (namespace ++ "_" ++ num)%string /\
    Forall (fun c => c <> "_"%char) (chars namespace) /\
    intLiteral num.

(** ** SSTORE: the classification table *)

Section SStoreTable.
Variable clearingRefund : uint64.
Variables original current value : Hash.

(** The cold surcharge, charged on top of every row. *)
Definition sstoreSurcharge (cold : bool) : uint64 :=
  if cold then params.ColdSloadCostEIP2929 else 0.

(** The charge of each row. *)
Definition sstoreCharge : uint64 :=
  if current =? value then params.WarmStorageReadCostEIP2929          (* no-op *)
  else if original =? current then
    if original =? 0 then params.SstoreSetGasEIP2200                  (* fresh slot *)
    else params.SstoreResetGasEIP2200 - params.ColdSloadCostEIP2929   (* reset *)
  else params.WarmStorageReadCostEIP2929.                             (* dirty update *)

(** The clearing refund: granted when a slot that held its original
    non-zero value is cleared, or when a dirty slot is cleared; taken back
    when a cleared slot is written again. *)
Definition clearingAdjust (db : StateDB) : StateDB :=
  if current =? value then db
  else if original =? current then
    if negb (original =? 0) && (value =? 0)
    then statedb.AddRefund clearingRefund db else db
  else if negb (original =? 0) && (current =? 0)
    then statedb.SubRefund clearingRefund db
  else if negb (original =? 0) && (value =? 0)
    then statedb.AddRefund clearingRefund db
  else db.

(** The refund for writing the original value back into a dirty slot. *)
Definition restoreAdjust (db : StateDB) : StateDB :=
  if (current =? value) || (original =? current) || negb (original =? value) then db
  else if original =? 0
    then statedb.AddRefund
           (params.SstoreSetGasEIP2200 - params.WarmStorageReadCostEIP2929) db
  else statedb.AddRefund
         ((params.SstoreResetGasEIP2200 - params.ColdSloadCostEIP2929)
          - params.WarmStorageReadCostEIP2929) db.
End SStoreTable.

(** What the table gives for a frame whose two top stack words are the slot
    and the new value. *)
Definition sstoreTable (clearingRefund : uint64) (fr : Frame) (x y : uint256)
  : result Frame (uint64 * option error) :=
  let a := self (contract fr) in
  let db := stateDB (evm fr) in
  let slot := uint256.Bytes32 x in
  let value := uint256.Bytes32 y in
  let current := statedb.GetState a slot db in
  let original := statedb.GetCommittedState a slot db in
  let cold := negb (snd (statedb.SlotInAccessList a slot db)) in
  let db1 := if cold then statedb.AddSlotToAccessList a slot db else db in
  Done (sstoreSurcharge cold + sstoreCharge original current value, None)
       (setDB (restoreAdjust original current value
                 (clearingAdjust clearingRefund original current value db1)) fr).

(** ** MCOPY: a copy through a temporary buffer *)

(** [n] bytes at [src] are read into a buffer, then written at [dst]. *)
Definition copyViaBuffer (st : list Z) (dst src n : nat) : list Z :=
  let buffer := take n (drop src st) in
  take dst st ++ buffer ++ drop (dst + n) st.

(** The memory grown with zero bytes to at least [size] bytes. *)
Definition grown (st : list Z) (size : nat) : list Z :=
  st ++ replicate (size - length st) 0.

(** ** Frames and tables to run the code on *)

Definition emptyDB : StateDB := mkStateDB ∅ ∅ ∅ ∅ 0 ∅ ∅ ∅.

(** A ledger in which contract [a] is warm, with one storage slot [k] whose
    committed value is [orig] and whose current value is [cur]. *)
Definition slotDB (a : Address) (k orig cur : Hash) (warmSlot : bool) (r : Z) : StateDB :=
  mkStateDB {[ (a, k) := cur ]} {[ (a, k) := orig ]} {[ a ]}
            (if warmSlot then {[ (a, k) ]} else ∅) r ∅ ∅ ∅.

Definition frameOf (db : StateDB) (a : Address) (gas : uint64)
    (st : list uint256) (bytes : list Z) : Frame :=
  mkFrame (mkEVM db 0 (Some 1) (Some 0)) (mkContract a gas) st (mkMemory bytes 0).

(** ** Two rules stated without exception *)

(** The classification table at every frame that passes the sentry check
    and holds the two operands. *)
Definition sstoreTableEverywhere : Prop :=
  forall (clearingRefund memorySize : uint64) (fr : Frame) (x y : uint256)
         (rest : list uint256),
    params.SstoreSentryGasEIP2200 < Gas (contract fr) ->
    Stack fr = x :: y :: rest ->
    makeGasSStoreFunc clearingRefund memorySize fr = sstoreTable clearingRefund fr x y.

(** The surcharge of a cold account access on top of the warm baseline. *)
Definition coldAccountSurcharge : uint64 :=
  params.ColdAccountAccessCostEIP2929 - params.WarmStorageReadCostEIP2929.

Definition setGas (g : uint64) (fr : Frame) : Frame :=
  setContract (mkContract (self (contract fr)) g) fr.

(** The call-variant rule at every frame with a cold callee: the surcharge
    is deducted, the prior function runs on what is left, and the surcharge
    is added back to the contract's gas and to the returned total. *)
Definition callSurchargeEverywhere : Prop :=
  forall (oldCalculator : gasFunc) (memorySize : uint64) (fr : Frame)
         (w0 w : uint256) (rest : list uint256),
    Stack fr = w0 :: w :: rest ->
    uint256.Bytes20 w ∉ accessedAddresses (stateDB (evm fr)) ->
    exists gas err fr1,
      oldCalculator memorySize
        (setGas (sub64 (Gas (contract fr)) coldAccountSurcharge)
           (setDB (statedb.AddAddressToAccessList (uint256.Bytes20 w) (stateDB (evm fr))) fr))
      = Done (gas, err) fr1 /\
      makeCallVariantGasCallEIP2929 oldCalculator memorySize fr
      = Done (add64 gas coldAccountSurcharge, err)
             (setGas (add64 (Gas (contract fr1)) coldAccountSurcharge) fr1).

(** A prior calculator that charges a flat amount, to run the wrappers on. *)
Definition flatGas (gas : uint64) : gasFunc := fun memorySize => mret (gas, None).

(** ** The access list only grows *)

(** [fr'] has every warm slot and every warm address of [fr]. *)
Definition warmth_kept (fr fr' : Frame) : Prop :=
  accessedSlots (stateDB (evm fr)) ⊆ accessedSlots (stateDB (evm fr')) /\
  accessedAddresses (stateDB (evm fr)) ⊆ accessedAddresses (stateDB (evm fr')).

Definition keeps_warm {A} (m : M A) : Prop :=
  forall fr a fr', m fr = Done a fr' -> warmth_kept fr fr'.

(** The dynamic gas functions of operations_acl.go; the ones that wrap a
    calculator of gas_table.go are taken with any calculator that leaves the
    access list alone. *)
Inductive acl_gas_function : gasFunc -> Prop :=
  | acl_sstore (clearingRefund : uint64) :
      acl_gas_function (makeGasSStoreFunc clearingRefund)
  | acl_sload : acl_gas_function gasSLoadEIP2929
  | acl_extcodecopy (old : gasFunc) :
      (forall memorySize, keeps_warm (old memorySize)) ->
      acl_gas_function (gasExtCodeCopyEIP2929 old)
  | acl_account_check : acl_gas_function gasEip2929AccountCheck
  | acl_call_variant (old : gasFunc) :
      (forall memorySize, keeps_warm (old memorySize)) ->
      acl_gas_function (makeCallVariantGasCallEIP2929 old)
  | acl_selfdestruct (refundsEnabled : bool) :
      acl_gas_function (makeSelfdestructGasFn refundsEnabled)
  | acl_mcopy : acl_gas_function gasMCopy
  | acl_create : acl_gas_function gasCreateEIP3860
  | acl_create2 : acl_gas_function gasCreate2EIP3860.

(** No operation is shared between two entries of the table. *)
Definition unshared (jt : JumpTable) : Prop :=
  forall op1 op2 p, entries jt !! op1 = Some p -> entries jt !! op2 = Some p -> op1 = op2.

(** ** The shape of an activator *)

(** Every activator is a run of field assignments followed by at most one
    installation of a new operation. *)
Fixpoint runWrites (ws : list (Z * fieldWrite)) : St JumpTable unit :=
  match ws with
  | [] => mret tt
  | (op, w) :: ws' => setField op w;; runWrites ws'
  end.

Definition runActivator (ws : list (Z * fieldWrite)) (new : option (Z * operation))
  : St JumpTable unit :=
  runWrites ws;;
  match new with
  | Some (op, o) => install op o
  | None => mret tt
  end.

(** The assignments of [ws], in order, applied to one operation. *)
Definition assignAll (ws : list fieldWrite) (o : operation) : operation :=
  fold_left (fun o w => assign w o) ws o.

(** What a run of assignments leaves of an operation: for each field that
    was assigned, the last value. *)
Record mask : Type := mkMask {
  lastConstantGas : option uint64;
  lastDynamicGas : option gasFunc
}.

Definition overlay (m : mask) (o : operation) : operation :=
  mkOperation (execute o)
              (default (constantGas o) (lastConstantGas m))
              (match lastDynamicGas m with Some g => Some g | None => dynamicGas o end)
              (minStack o) (maxStack o).

Definition record (m : mask) (w : fieldWrite) : mask :=
  match w with
  | ConstantGas v => mkMask (Some v) (lastDynamicGas m)
  | DynamicGas g => mkMask (lastConstantGas m) (Some g)
  end.

Definition maskOf (ws : list fieldWrite) : mask :=
  fold_left record ws (mkMask None None).

(** The assignments of [ws] that go through pointer [q]. *)
Definition hits (E : gmap Z nat) (q : nat) (ws : list (Z * fieldWrite)) : list fieldWrite :=
  (filter (fun x => E !! x.1 = Some q) ws).*2.

(** Every assignment of [ws] finds an operation to write to. *)
Definition resolvable (ws : list (Z * fieldWrite)) (jt : JumpTable) : Prop :=
  Forall (fun x => exists p, entries jt !! x.1 = Some p /\ is_Some (heap jt !! p)) ws.

Section Shapes.
Context `{LegacyGas}.

Definition newOp (execute : executionFunc) (constantGas : uint64)
    (dynamicGas : option gasFunc) (pops push : Z) : operation :=
  {| execute := Some execute;
     constantGas := constantGas;
     dynamicGas := dynamicGas;
     minStack := minStack_ pops push;
     maxStack := maxStack_ pops push |}.

Definition writes1884 : list (Z * fieldWrite) :=
  [ (SLOAD, ConstantGas params.SloadGasEIP1884);
    (BALANCE, ConstantGas params.BalanceGasEIP1884);
    (EXTCODEHASH, ConstantGas params.ExtcodeHashGasEIP1884) ].

Definition writes2200 : list (Z * fieldWrite) :=
  [ (SLOAD, ConstantGas params.SloadGasEIP2200);
    (SSTORE, DynamicGas gasSStoreEIP2200) ].

Definition writes2929 : list (Z * fieldWrite) :=
  [ (SSTORE, DynamicGas gasSStoreEIP2929);
    (SLOAD, ConstantGas 0);
    (SLOAD, DynamicGas gasSLoadEIP2929);
    (EXTCODECOPY, ConstantGas params.WarmStorageReadCostEIP2929);
    (EXTCODECOPY, DynamicGas (gasExtCodeCopyEIP2929 gasExtCodeCopy));
    (EXTCODESIZE, ConstantGas params.WarmStorageReadCostEIP2929);
    (EXTCODESIZE, DynamicGas gasEip2929AccountCheck);
    (EXTCODEHASH, ConstantGas params.WarmStorageReadCostEIP2929);
    (EXTCODEHASH, DynamicGas gasEip2929AccountCheck);
    (BALANCE, ConstantGas params.WarmStorageReadCostEIP2929);
    (BALANCE, DynamicGas gasEip2929AccountCheck);
    (CALL, ConstantGas params.WarmStorageReadCostEIP2929);
    (CALL, DynamicGas gasCallEIP2929);
    (CALLCODE, ConstantGas params.WarmStorageReadCostEIP2929);
    (CALLCODE, DynamicGas gasCallCodeEIP2929);
    (STATICCALL, ConstantGas params.WarmStorageReadCostEIP2929);
    (STATICCALL, DynamicGas gasStaticCallEIP2929);
    (DELEGATECALL, ConstantGas params.WarmStorageReadCostEIP2929);
    (DELEGATECALL, DynamicGas gasDelegateCallEIP2929);
    (SELFDESTRUCT, ConstantGas params.SelfdestructGasEIP150);
    (SELFDESTRUCT, DynamicGas gasSelfdestructEIP2929) ].

Definition writes3529 : list (Z * fieldWrite) :=
  [ (SSTORE, DynamicGas gasSStoreEIP3529);
    (SELFDESTRUCT, DynamicGas gasSelfdestructEIP3529) ].

(** The activators by shape, in the order of the [activators] map. *)
Definition shapes : list (string * (list (Z * fieldWrite) * option (Z * operation))) :=
  [ ("ethereum_5656", ([], Some (MCOPY, newOp opMCopy 0 (Some gasMCopy) 3 0)));
    ("ethereum_3855", ([], Some (PUSH0, newOp opPush0 GasQuickStep None 0 1)));
    ("ethereum_3529", (writes3529, None));
    ("ethereum_3198", ([], Some (BASEFEE, newOp opBaseFee GasQuickStep None 0 1)));
    ("ethereum_2929", (writes2929, None));
    ("ethereum_2200", (writes2200, None));
    ("ethereum_1884",
      (writes1884, Some (SELFBALANCE, newOp opSelfBalance GasFastStep None 0 1)));
    ("ethereum_1344", ([], Some (CHAINID, newOp opChainID GasQuickStep None 0 1))) ].
End Shapes.

(** The installed opcode, if any, is not among the assigned ones. *)
Definition apart (ws : list (Z * fieldWrite)) (new : option (Z * operation)) : Prop :=
  match new with
  | Some (op, _) => op ∉ ws.*1
  | None => True
  end.

(** A table with one operation of its own for each opcode in [ops]. *)
Definition plainOp : operation := mkOperation None 0 None 0 params.StackLimit.

Fixpoint tableOf (ops : list Z) : JumpTable :=
  match ops with
  | [] => mkJumpTable ∅ ∅
  | op :: ops' =>
      let jt := tableOf ops' in
      mkJumpTable (<[op := length ops']> (entries jt)) (<[length ops' := plainOp]> (heap jt))
  end.

Definition baseTable : JumpTable :=
  tableOf [SLOAD; SSTORE; BALANCE; EXTCODESIZE; EXTCODECOPY; EXTCODEHASH;
           CALL; CALLCODE; DELEGATECALL; STATICCALL; SELFDESTRUCT].

(** Flat stand-ins for the calculators of gas_table.go. *)
Definition flatLegacy : LegacyGas :=
  {| gasCall := flatGas 0;
     gasCallCode := flatGas 0;
     gasDelegateCall := flatGas 0;
     gasStaticCall := flatGas 0;
     gasExtCodeCopy := flatGas 0;
     gasSStoreEIP2200 := flatGas 0 |}.

(** Two outcomes of running activators agree: both panic with the same
    message, or both return and every opcode has equal descriptors (execute,
    constantGas, dynamicGas, minStack, maxStack) in the two tables. *)
Definition same_descriptors (r1 r2 : result JumpTable unit) : Prop :=
  match r1, r2 with
  | Done _ jt1, Done _ jt2 => forall op, descriptor jt1 op = descriptor jt2 op
  | Panic msg1, Panic msg2 => msg1 = msg2
  | _, _ => False
  end.

(** ** Comparing outcomes *)

(** The outcome with the stack replaced: what a gas function returns apart
    from the operands it was given. *)
Definition withStack {A} (st : list uint256) (r : result Frame A) : result Frame A :=
  match r with
  | Done a fr => Done a (setStack st fr)
  | Panic msg => Panic msg
  end.

(** The frame with the refund counter cleared: what is left to compare when
    two runs may differ in their refunds only. *)
Definition withoutRefund (fr : Frame) : Frame :=
  setDB (statedb.setRefund 0 (stateDB (evm fr))) fr.

(** Two outcomes agree on the charge, the error and everything in the frame
    but the refund counter, or are the same panic. *)
Definition same_but_refund {A} (r1 r2 : result Frame A) : Prop :=
  match r1, r2 with
  | Done a1 fr1, Done a2 fr2 => a1 = a2 /\ withoutRefund fr1 = withoutRefund fr2
  | Panic msg1, Panic msg2 => msg1 = msg2
  | _, _ => False
  end.

(** ** eips.go: the names that can be activated *)

(** Go's order on strings: byte by byte, a prefix first. *)
Definition bytes_le (s1 s2 : string) : Prop := String.leb s1 s2 = true.

#[local] Instance bytes_le_dec : RelDecision bytes_le.
Proof. intros s1 s2. unfold bytes_le. apply _. Defined.

(** [sort.Strings] (Go's library): the names in increasing order, computed
    here by a merge sort. *)
Definition sort_Strings (names : list string) : list string :=
  merge_sort bytes_le names.

Section ActivateableNames.
Context `{LegacyGas}.

(** [ActivateableEips] returns the sorted slice of EIP names that can be
    activated. [range activators] yields every key once, in an order that
    Go leaves open: [order] is the order in which this run yields them. *)
Definition ActivateableEips (order : list string) : list string :=
  let names := [] in
  if (0 <? size activators)%nat
  then
    let names := foldl (fun names k => names ++ [k]) names order in
    sort_Strings names
  else names.
End ActivateableNames.

(** The names as a reader of the map sees them, in increasing order. *)
Definition registeredNames : list string :=
  [ "ethereum_1344"; "ethereum_1884"; "ethereum_2200"; "ethereum_2929";
    "ethereum_3198"; "ethereum_3529"; "ethereum_3855"; "ethereum_5656" ]%string.

(** * The v9 upgrade handler *)

(** ** upgrade handler for the EVM module: [MigrateStore] *)

Module v9.

(** Modelled from the spec: [evmtypes.Params] (x/evm/types) is not part of
    the sources; the migration reads and writes its [ExtraEIPs] and hands the
    other fields on as they are. *)
Record Params (Other : Type) : Type := mkParams {
  ExtraEIPs : list string;
  otherFields : Other
}.
Arguments mkParams {Other} ExtraEIPs otherFields.
Arguments ExtraEIPs {Other} p.
Arguments otherFields {Other} p.

(** The collaborators of the migration: the binary codec ([MustUnmarshal]
    panics on bytes it cannot decode: [None]), the validation of the
    parameters and the key they are stored under. *)
Class Collaborators (Other Bytes : Type) : Type := {
  MustUnmarshal : Bytes -> option (Params Other);
  MustMarshal : Params Other -> Bytes;
  Validate : Params Other -> option error;
  KeyPrefixParams : list Z
}.

Definition newEIP : string := "ethereum_5656".

(** The search loop: [found] is set at the first entry equal to [newEIP]. *)
Fixpoint found (eips : list string) : bool :=
  match eips with
  | [] => false
  | eip :: eips' => if String.eqb eip newEIP then true else found eips'
  end.

Section MigrateStore.
Context {Other Bytes : Type} `{Collaborators Other Bytes}.

(** The key-value store of the module; a key without value reads as [nil]. *)
Definition KVStore : Type := gmap (list Z) Bytes.

(** [MigrateStore] migrates the EVM module store from v8 to v9: the EVM
    parameters are updated to include the new EIP. The log lines are left
    out. *)
Definition MigrateStore : St KVStore (option error) :=
  (* Retrieve the current EVM parameters. *)
  paramsBz ← gets (fun store : KVStore => store !! KeyPrefixParams);
  match paramsBz with
  | None => mret (Some (errorString "evm parameters not found"))
  | Some paramsBz =>
      match MustUnmarshal paramsBz with
      | None => panic "unable to unmarshal"
      | Some params =>
          (* Check if the new EIP identifier is already present. *)
          let params :=
            if negb (found (ExtraEIPs params))
            then mkParams (ExtraEIPs params ++ [newEIP]) (otherFields params)
            else params in
          (* Validate the updated parameters. *)
          match Validate params with
          | Some err => mret (Some err)
          | None =>
              (* Marshal and save the updated parameters. *)
              modify (fun store : KVStore => <[KeyPrefixParams := MustMarshal params]> store);;
              mret None
          end
      end
  end.
End MigrateStore.
End v9.

(** A codec that stores the parameters as they are, and a validation that
    accepts parameters with at most four extra EIPs. *)
Definition plainCollaborators : v9.Collaborators unit (v9.Params unit) :=
  {| v9.MustUnmarshal := Some;
     v9.MustMarshal := fun p => p;
     v9.Validate := fun p =>
       if (length (v9.ExtraEIPs p) <=? 4)%nat then None
       else Some (errorString "too many extra EIPs");
     v9.KeyPrefixParams := [3] |}.

(** A store whose parameters list EIP-3855 only, and the store with
    EIP-5656 added behind it. *)
Definition storeV8 : gmap (list Z) (v9.Params unit) :=
  {[ [3] := v9.mkParams ["ethereum_3855"%string] tt ]}.
Definition storeV9 : gmap (list Z) (v9.Params unit) :=
  <[ [3] := v9.mkParams ["ethereum_3855"; "ethereum_5656"]%string tt ]> storeV8.

(** * Properties *)

Ltac run :=
  repeat (progress (cbn [mbind mret St_bind St_ret gets modify panic readDB writeDB
                         Back Peek Pop Push useGas fst snd negb orb andb] in *)
          || unfold mbind, mret, St_bind, St_ret, gets, modify, panic,
                    readDB, writeDB, Back, Peek, Pop, Push, useGas in * ).

(** ** SSTORE *)

(** C5. When the contract's gas is at most the sentry threshold, the SSTORE
    gas function returns the reentrancy-sentry error at once: whatever the
    stack (even an empty one) and the state database hold, and the frame,
    with its access list and refund counter, is returned as it was. *)
Theorem sstore_sentry_first (clearingRefund memorySize : uint64) (fr : Frame) :
  Gas (contract fr) <= params.SstoreSentryGasEIP2200 ->
  makeGasSStoreFunc clearingRefund memorySize fr
  = Done (0, Some (errorString "not enough gas for reentrancy sentry")) fr.
Proof.
  intros Hgas. unfold makeGasSStoreFunc. run.
  destruct (Gas (contract fr) <=? params.SstoreSentryGasEIP2200) eqn:E; [reflexivity|].
  apply Z.leb_gt in E. lia.
Qed.

Lemma sstore_sentry_first_witness :
  makeGasSStoreFunc params.SstoreClearsScheduleRefundEIP2200 0
    (frameOf emptyDB 7 2300 [] [])
  = Done (0, Some (errorString "not enough gas for reentrancy sentry"))
         (frameOf emptyDB 7 2300 [] []).
Proof.
  apply (sstore_sentry_first params.SstoreClearsScheduleRefundEIP2200 0
           (frameOf emptyDB 7 2300 [] [])).
  vm_compute. discriminate.
Defined.

Ltac split_eqb :=
  repeat match goal with
         | |- context [?u =? ?v] => destruct (u =? v) eqn:?; cbn
         end.

Ltac by_compute := vm_compute; set_solver.

(** C1 (as stated). The table does not hold at every frame that passes the
    sentry check: on a cold slot of a contract whose own address is not in
    the access list the function panics instead of charging. *)
Lemma sstore_table_fails_on_cold_contract : ~ sstoreTableEverywhere.
Proof.
  intros Hall.
  specialize (Hall params.SstoreClearsScheduleRefundEIP2200 0
                (frameOf emptyDB 7 10000 [1; 0] []) 1 0 []).
  vm_compute in Hall.
  specialize (Hall eq_refl eq_refl). discriminate Hall.
Qed.

(** C1 (amended). For every frame that passes the sentry check, holds the
    slot and the new value on top of the stack, and in which the slot is
    warm or the contract's own address is in the access list, the SSTORE gas
    function returns without error what the classification table gives: the
    cold surcharge if the slot was cold (the slot is then marked warm) plus
    the charge of the row, with the clearing refund granted or taken back and
    the restore refund granted as the table says. *)
Theorem sstore_classification (clearingRefund memorySize : uint64) (fr : Frame)
    (x y : uint256) (rest : list uint256) :
  params.SstoreSentryGasEIP2200 < Gas (contract fr) ->
  Stack fr = x :: y :: rest ->
  (self (contract fr), uint256.Bytes32 x) ∈ accessedSlots (stateDB (evm fr))
  \/ self (contract fr) ∈ accessedAddresses (stateDB (evm fr)) ->
  makeGasSStoreFunc clearingRefund memorySize fr = sstoreTable clearingRefund fr x y.
Proof.
  intros Hgas Hst Hwarm.
  destruct fr as [[db cgt cid bf] [a g] st m]. cbn in *. subst st.
  unfold makeGasSStoreFunc, sstoreTable. run. cbn.
  destruct (g <=? params.SstoreSentryGasEIP2200) eqn:E; [apply Z.leb_le in E; lia|].
  unfold statedb.SlotInAccessList. cbn.
  destruct (bool_decide ((a, uint256.Bytes32 x) ∈ accessedSlots db)) eqn:Es; cbn.
  - unfold statedb.GetState, statedb.GetCommittedState, sstoreCharge, clearingAdjust,
      restoreAdjust, sstoreSurcharge. cbn.
    split_eqb; reflexivity.
  - destruct (bool_decide (a ∈ accessedAddresses db)) eqn:Ea; cbn.
    + unfold statedb.GetState, statedb.GetCommittedState, sstoreCharge, clearingAdjust,
        restoreAdjust, sstoreSurcharge. cbn.
      split_eqb; reflexivity.
    + apply bool_decide_eq_false in Es, Ea. tauto.
Qed.

(** Clearing a cold slot that holds its original value 5: the surcharge 2100
    plus the reset cost 2900, and the clearing refund 15000. *)
Lemma sstore_classification_witness :
  makeGasSStoreFunc params.SstoreClearsScheduleRefundEIP2200 0
    (frameOf (slotDB 7 1 5 5 false 0) 7 10000 [1; 0] [])
  = Done (5000, None)
      (frameOf (statedb.AddRefund 15000
                  (statedb.AddSlotToAccessList 7 1 (slotDB 7 1 5 5 false 0)))
               7 10000 [1; 0] []).
Proof.
  rewrite (sstore_classification params.SstoreClearsScheduleRefundEIP2200 0
             (frameOf (slotDB 7 1 5 5 false 0) 7 10000 [1; 0] []) 1 0 []).
  - reflexivity.
  - vm_compute. reflexivity.
  - reflexivity.
  - right. by_compute.
Defined.

(** The literal rows of the table, run on the code (warm slot 1 of contract
    7, refund counter at 15000): a fresh slot, a cleared slot, and a cleared
    slot written again with its original value. *)
Example sstore_fresh_slot :
  makeGasSStoreFunc params.SstoreClearsScheduleRefundEIP2200 0
    (frameOf (slotDB 7 1 0 0 true 15000) 7 10000 [1; 5] [])
  = Done (20000, None) (frameOf (slotDB 7 1 0 0 true 15000) 7 10000 [1; 5] []).
Proof. reflexivity. Qed.

Example sstore_clear_slot :
  makeGasSStoreFunc params.SstoreClearsScheduleRefundEIP2200 0
    (frameOf (slotDB 7 1 5 5 true 15000) 7 10000 [1; 0] [])
  = Done (2900, None) (frameOf (slotDB 7 1 5 5 true 30000) 7 10000 [1; 0] []).
Proof. reflexivity. Qed.

Example sstore_recreate_slot :
  makeGasSStoreFunc params.SstoreClearsScheduleRefundEIP2200 0
    (frameOf (slotDB 7 1 5 0 true 15000) 7 10000 [1; 5] [])
  = Done (100, None) (frameOf (slotDB 7 1 5 0 true 2800) 7 10000 [1; 5] []).
Proof. reflexivity. Qed.

(** C10. With the sentry check passed and both operands on the stack, a cold
    slot of a contract whose own address is not in the access list makes the
    SSTORE gas function panic; so whenever it returns on a cold slot, the
    contract's address was in the access list. *)
Theorem sstore_cold_contract_panics (clearingRefund memorySize : uint64) (fr : Frame)
    (x y : uint256) (rest : list uint256) :
  params.SstoreSentryGasEIP2200 < Gas (contract fr) ->
  Stack fr = x :: y :: rest ->
  (self (contract fr), uint256.Bytes32 x) ∉ accessedSlots (stateDB (evm fr)) ->
  (self (contract fr) ∉ accessedAddresses (stateDB (evm fr)) ->
   makeGasSStoreFunc clearingRefund memorySize fr
   = Panic "impossible case: address was not present in access list during sstore op")
  /\ (forall r fr', makeGasSStoreFunc clearingRefund memorySize fr = Done r fr' ->
      self (contract fr) ∈ accessedAddresses (stateDB (evm fr))).
Proof.
  intros Hgas Hst Hcold.
  assert (Hpanic : self (contract fr) ∉ accessedAddresses (stateDB (evm fr)) ->
            makeGasSStoreFunc clearingRefund memorySize fr
            = Panic "impossible case: address was not present in access list during sstore op").
  { intros Haddr.
    destruct fr as [[db cgt cid bf] [a g] st m]. cbn in *. subst st.
    unfold makeGasSStoreFunc. run. cbn.
    destruct (g <=? params.SstoreSentryGasEIP2200) eqn:E; [apply Z.leb_le in E; lia|].
    unfold statedb.SlotInAccessList. cbn.
    rewrite (bool_decide_eq_false_2 _ Hcold), (bool_decide_eq_false_2 _ Haddr).
    reflexivity. }
  split; [exact Hpanic|].
  intros r fr' Hdone.
  destruct (decide (self (contract fr) ∈ accessedAddresses (stateDB (evm fr))))
    as [Hin|Hnin]; [exact Hin|].
  rewrite (Hpanic Hnin) in Hdone. discriminate.
Qed.

Lemma sstore_cold_contract_panics_witness :
  makeGasSStoreFunc params.SstoreClearsScheduleRefundEIP2200 0
    (frameOf emptyDB 7 10000 [1; 0] [])
  = Panic "impossible case: address was not present in access list during sstore op".
Proof.
  apply (sstore_cold_contract_panics params.SstoreClearsScheduleRefundEIP2200 0
           (frameOf emptyDB 7 10000 [1; 0] []) 1 0 []).
  - reflexivity.
  - reflexivity.
  - apply not_elem_of_empty.
  - apply not_elem_of_empty.
Defined.

(** ** The call variants *)

(** C3 (as stated). A cold callee does not always have the surcharge
    deducted and added back: when the contract cannot pay the surcharge the
    function returns out-of-gas without running the prior function. *)
Lemma call_surcharge_fails_without_gas : ~ callSurchargeEverywhere.
Proof.
  intros Hall.
  destruct (Hall (flatGas 7) 0 (frameOf emptyDB 7 0 [0; 9] []) 0 9 [])
    as (gas & err & fr1 & Hold & Hnew).
  - reflexivity.
  - cbn. apply not_elem_of_empty.
  - vm_compute in Hold. injection Hold as <- <- <-.
    vm_compute in Hnew. discriminate Hnew.
Qed.

(** C3 (amended). With the callee address second on the stack: a warm
    callee gives the prior function's outcome unchanged. A cold callee is
    marked warm; if the contract's gas is below the surcharge the function
    returns [(0, ErrOutOfGas)] and the prior function does not run;
    otherwise the surcharge is deducted and the prior function runs; a panic
    or an error of the prior function is passed on as it is, with the
    surcharge still deducted, and a result without error has the surcharge
    added back, modulo [2^64], to the contract's gas and to the returned
    total. *)
Theorem call_variant_gas (oldCalculator : gasFunc) (memorySize : uint64) (fr : Frame)
    (w0 w : uint256) (rest : list uint256) :
  Stack fr = w0 :: w :: rest ->
  makeCallVariantGasCallEIP2929 oldCalculator memorySize fr
  = let addr := uint256.Bytes20 w in
    if statedb.AddressInAccessList addr (stateDB (evm fr))
    then oldCalculator memorySize fr
    else
      let fr0 := setDB (statedb.AddAddressToAccessList addr (stateDB (evm fr))) fr in
      if Gas (contract fr) <? coldAccountSurcharge
      then Done (0, Some ErrOutOfGas) fr0
      else
        match oldCalculator memorySize
                (setGas (sub64 (Gas (contract fr)) coldAccountSurcharge) fr0) with
        | Done (gas, None) fr1 =>
            Done (add64 gas coldAccountSurcharge, None)
                 (setGas (add64 (Gas (contract fr1)) coldAccountSurcharge) fr1)
        | other => other
        end.
Proof.
  intros Hst.
  destruct fr as [[db cgt cid bf] [a g] st m]. cbn in *. subst st.
  unfold makeCallVariantGasCallEIP2929. run. cbn.
  destruct (statedb.AddressInAccessList (uint256.Bytes20 w) db) eqn:Ew; cbn.
  - destruct (oldCalculator memorySize _) as [r fr'|msg]; reflexivity.
  - unfold UseGas, coldAccountSurcharge, setGas. cbn.
    destruct (g <? _) eqn:Eg; cbn; [reflexivity|].
    destruct (oldCalculator memorySize _) as [[gas [e|]] fr'|msg]; reflexivity.
Qed.

(** A cold callee and a contract with 10000 gas, over a prior function that
    charges 7: 2507 is returned and the contract keeps its 10000 gas. *)
Lemma call_variant_gas_witness :
  makeCallVariantGasCallEIP2929 (flatGas 7) 0 (frameOf emptyDB 7 10000 [0; 9] [])
  = Done (2507, None)
         (frameOf (statedb.AddAddressToAccessList 9 emptyDB) 7 10000 [0; 9] []).
Proof.
  rewrite (call_variant_gas (flatGas 7) 0 (frameOf emptyDB 7 10000 [0; 9] []) 0 9 []).
  - reflexivity.
  - reflexivity.
Defined.

(** ** Jump tables: assignments through pointers *)

Lemma assignAll_snoc ws w o : assignAll (ws ++ [w]) o = assign w (assignAll ws o).
Proof. unfold assignAll. rewrite fold_left_app. reflexivity. Qed.

Lemma maskOf_snoc ws w : maskOf (ws ++ [w]) = record (maskOf ws) w.
Proof. unfold maskOf. rewrite fold_left_app. reflexivity. Qed.

Lemma assignAll_overlay ws o : assignAll ws o = overlay (maskOf ws) o.
Proof.
  induction ws as [|w ws IH] using rev_ind.
  - destruct o; reflexivity.
  - rewrite assignAll_snoc, maskOf_snoc, IH.
    destruct w, (maskOf ws) as [cg dg]; reflexivity.
Qed.

Lemma overlay_idem m o : overlay m (overlay m o) = overlay m o.
Proof. destruct m as [[v|] [g|]], o; reflexivity. Qed.

Lemma assignAll_idem ws o : assignAll ws (assignAll ws o) = assignAll ws o.
Proof. rewrite !assignAll_overlay. apply overlay_idem. Qed.

Lemma setField_Done op w jt u jt' :
  setField op w jt = Done u jt' ->
  exists p o, entries jt !! op = Some p /\ heap jt !! p = Some o /\
              jt' = mkJumpTable (entries jt) (<[p := assign w o]> (heap jt)).
Proof.
  unfold setField, descriptor. intros Hs.
  destruct (entries jt !! op) as [p|] eqn:Ep; cbn in Hs; [|discriminate].
  destruct (heap jt !! p) as [o|] eqn:Eo; [|discriminate].
  injection Hs as _ <-. eauto.
Qed.

Lemma setField_resolved op w jt p o :
  entries jt !! op = Some p -> heap jt !! p = Some o ->
  setField op w jt = Done tt (mkJumpTable (entries jt) (<[p := assign w o]> (heap jt))).
Proof. intros Ep Eo. unfold setField, descriptor. rewrite Ep. cbn. rewrite Eo. reflexivity. Qed.

Lemma hits_cons_hit E q op w ws :
  E !! op = Some q -> hits E q ((op, w) :: ws) = w :: hits E q ws.
Proof. intros Hq. unfold hits. rewrite filter_cons_True by exact Hq. reflexivity. Qed.

Lemma hits_cons_miss E q op w ws :
  E !! op <> Some q -> hits E q ((op, w) :: ws) = hits E q ws.
Proof. intros Hq. unfold hits. rewrite filter_cons_False by exact Hq. reflexivity. Qed.

(** After a run of assignments the entries are the same, and each operation
    of the heap has received the assignments that went through its address. *)
Lemma runWrites_heap ws jt jt' :
  runWrites ws jt = Done tt jt' ->
  entries jt' = entries jt /\
  forall q, heap jt' !! q = assignAll (hits (entries jt) q ws) <$> heap jt !! q.
Proof.
  revert jt. induction ws as [|[op w] ws IH]; intros jt Hrun.
  - injection Hrun as <-. split; [reflexivity|]. intros q. cbn.
    destruct (heap jt !! q); reflexivity.
  - cbn in Hrun. unfold mbind, St_bind in Hrun.
    destruct (setField op w jt) as [u jt1|msg] eqn:Es; [|discriminate].
    apply setField_Done in Es as (p & o & Ep & Eo & ->).
    apply IH in Hrun as [HE HH]. cbn in HE, HH.
    split; [exact HE|]. intros q. rewrite HH.
    destruct (decide (p = q)) as [<-|Hne].
    + rewrite lookup_insert_eq, Eo, (hits_cons_hit _ _ _ _ _ Ep). reflexivity.
    + rewrite lookup_insert_ne by exact Hne.
      rewrite hits_cons_miss by congruence. reflexivity.
Qed.

Lemma runWrites_resolvable ws jt jt' :
  runWrites ws jt = Done tt jt' -> resolvable ws jt.
Proof.
  revert jt. induction ws as [|[op w] ws IH]; intros jt Hrun; [constructor|].
  cbn in Hrun. unfold mbind, St_bind in Hrun.
  destruct (setField op w jt) as [u jt1|msg] eqn:Es; [|discriminate].
  apply setField_Done in Es as (p & o & Ep & Eo & ->).
  apply IH in Hrun. constructor.
  - exists p. rewrite Eo. eauto.
  - eapply Forall_impl; [exact Hrun|]. cbn. intros x (p' & Hp' & Hs).
    exists p'. split; [exact Hp'|].
    destruct (decide (p = p')) as [<-|Hne]; [rewrite Eo; eauto|].
    rewrite lookup_insert_ne in Hs by exact Hne. exact Hs.
Qed.

Lemma resolvable_runWrites ws jt :
  resolvable ws jt -> exists jt', runWrites ws jt = Done tt jt'.
Proof.
  revert jt. induction ws as [|[op w] ws IH]; intros jt Hres.
  - eexists. reflexivity.
  - apply Forall_cons in Hres as [(p & Ep & [o Eo]) Hres]. cbn in Ep.
    cbn. unfold mbind, St_bind. rewrite (setField_resolved _ _ _ _ _ Ep Eo).
    apply IH. eapply Forall_impl; [exact Hres|]. cbn. intros x (p' & Hp' & Hs).
    exists p'. split; [exact Hp'|].
    destruct (decide (p = p')) as [<-|Hne]; [rewrite lookup_insert_eq; eauto|].
    rewrite lookup_insert_ne by exact Hne. exact Hs.
Qed.

Lemma JumpTable_eq jt1 jt2 :
  entries jt1 = entries jt2 -> (forall q, heap jt1 !! q = heap jt2 !! q) -> jt1 = jt2.
Proof.
  destruct jt1, jt2. cbn. intros -> Hh. f_equal. apply map_eq. exact Hh.
Qed.

(** A run of assignments changes nothing when it is repeated. *)
Lemma runWrites_idem ws jt jt1 :
  runWrites ws jt = Done tt jt1 -> runWrites ws jt1 = Done tt jt1.
Proof.
  intros Hrun.
  pose proof (runWrites_resolvable _ _ _ Hrun) as Hres.
  pose proof (runWrites_heap _ _ _ Hrun) as [HE HH].
  destruct (resolvable_runWrites ws jt1) as [jt2 Hrun2].
  { eapply Forall_impl; [exact Hres|]. cbn. intros x (p & Hp & Hs).
    exists p. rewrite HE, HH. split; [exact Hp|].
    destruct Hs as [o ->]. cbn. eauto. }
  rewrite Hrun2. f_equal.
  pose proof (runWrites_heap _ _ _ Hrun2) as [HE2 HH2].
  apply JumpTable_eq; [exact HE2|].
  intros q. rewrite HH2, HE, HH.
  destruct (heap jt !! q) as [o|]; cbn; [|reflexivity].
  rewrite assignAll_idem. reflexivity.
Qed.

Lemma runWrites_wf ws jt jt' :
  wf_table jt -> runWrites ws jt = Done tt jt' -> wf_table jt'.
Proof.
  intros Hwf Hrun op p Hp.
  destruct (runWrites_heap _ _ _ Hrun) as [HE HH].
  rewrite HE in Hp. rewrite HH.
  destruct (Hwf op p Hp) as [o ->]. cbn. eauto.
Qed.

Lemma fresh_not_pointed jt op :
  wf_table jt -> entries jt !! op <> Some (fresh (dom (heap jt))).
Proof.
  intros Hwf Hp. apply Hwf in Hp.
  apply elem_of_dom in Hp. exact (is_fresh _ Hp).
Qed.

(** Installing a new operation changes the descriptor of its opcode only. *)
Lemma install_descriptor op o jt u jt' op' :
  wf_table jt -> install op o jt = Done u jt' ->
  descriptor jt' op' = if decide (op = op') then Some o else descriptor jt op'.
Proof.
  intros Hwf Hi. injection Hi as _ <-. unfold descriptor. cbn.
  destruct (decide (op = op')) as [<-|Hne].
  - rewrite lookup_insert_eq. cbn. apply lookup_insert_eq.
  - rewrite lookup_insert_ne by exact Hne.
    destruct (entries jt !! op') as [q|] eqn:Eq; cbn; [|reflexivity].
    apply lookup_insert_ne. intros <-.
    exact (fresh_not_pointed jt op' Hwf Eq).
Qed.

Lemma install_wf op o jt u jt' :
  wf_table jt -> install op o jt = Done u jt' -> wf_table jt'.
Proof.
  intros Hwf Hi op' p Hp. injection Hi as _ <-. cbn in *.
  destruct (decide (fresh (dom (heap jt)) = p)) as [<-|Hne].
  - rewrite lookup_insert_eq. eauto.
  - rewrite lookup_insert_ne by exact Hne.
    destruct (decide (op = op')) as [<-|Hop].
    + rewrite lookup_insert_eq in Hp. congruence.
    + rewrite lookup_insert_ne in Hp by exact Hop. eauto.
Qed.

Lemma hits_ext E1 E2 q ws :
  (forall x, x ∈ ws -> E1 !! x.1 = E2 !! x.1) -> hits E1 q ws = hits E2 q ws.
Proof.
  intros Hext. unfold hits. f_equal.
  induction ws as [|x ws IH]; [reflexivity|].
  assert (Hx : E1 !! x.1 = E2 !! x.1) by (apply Hext; left).
  assert (Hws : forall y, y ∈ ws -> E1 !! y.1 = E2 !! y.1) by (intros y Hy; apply Hext; right; exact Hy).
  destruct (decide (E1 !! x.1 = Some q)) as [Hq|Hq].
  - rewrite !filter_cons_True by congruence. f_equal. apply IH, Hws.
  - rewrite !filter_cons_False by congruence. apply IH, Hws.
Qed.

Lemma hits_none E q ws :
  (forall x, x ∈ ws -> E !! x.1 <> Some q) -> hits E q ws = [].
Proof.
  intros Hno. unfold hits.
  induction ws as [|x ws IH]; [reflexivity|].
  rewrite filter_cons_False by (apply Hno; left).
  apply IH. intros y Hy. apply Hno. right. exact Hy.
Qed.

(** An installation after a run of assignments: running the assignments
    again leaves the table as it is. *)
Lemma runWrites_after_install ws op o jt jtW u jt1 :
  wf_table jt -> op ∉ ws.*1 ->
  runWrites ws jt = Done tt jtW -> install op o jtW = Done u jt1 ->
  runWrites ws jt1 = Done tt jt1.
Proof.
  intros Hwf Hop Hrun Hi.
  pose proof (runWrites_wf _ _ _ Hwf Hrun) as HwfW.
  pose proof (runWrites_idem _ _ _ Hrun) as Hrun'.
  pose proof (runWrites_resolvable _ _ _ Hrun') as Hres.
  pose proof (runWrites_heap _ _ _ Hrun') as [_ HH].
  injection Hi as _ <-.
  set (p := fresh (dom (heap jtW))) in *.
  assert (Hent : forall x, x ∈ ws -> <[op := p]> (entries jtW) !! x.1 = entries jtW !! x.1).
  { intros x Hx. apply lookup_insert_ne. intros ->. apply Hop.
    apply list_elem_of_fmap. eauto. }
  destruct (resolvable_runWrites ws
              (mkJumpTable (<[op := p]> (entries jtW)) (<[p := o]> (heap jtW))))
    as [jt2 Hrun2].
  { apply Forall_forall. intros x Hx.
    destruct (proj1 (Forall_forall _ _) Hres x Hx) as (q & Hq & Hs).
    exists q. cbn. rewrite (Hent x Hx). split; [exact Hq|].
    rewrite lookup_insert_ne; [exact Hs|]. intros <-.
    exact (fresh_not_pointed jtW _ HwfW Hq). }
  rewrite Hrun2. f_equal.
  pose proof (runWrites_heap _ _ _ Hrun2) as [HE2 HH2]. cbn in HE2, HH2.
  apply JumpTable_eq; [exact HE2|]. cbn.
  intros q. rewrite HH2.
  destruct (decide (p = q)) as [<-|Hne].
  - rewrite lookup_insert_eq. cbn. rewrite hits_none; [reflexivity|].
    intros x Hx. rewrite (Hent x Hx). apply fresh_not_pointed, HwfW.
  - rewrite lookup_insert_ne by exact Hne.
    rewrite (hits_ext _ (entries jtW)) by exact Hent.
    symmetry. apply HH.
Qed.

(** An activator of the given shape is idempotent on descriptors. *)
Lemma runActivator_idem ws new jt jt1 :
  wf_table jt -> apart ws new ->
  runActivator ws new jt = Done tt jt1 ->
  exists jt2, runActivator ws new jt1 = Done tt jt2 /\
              forall op, descriptor jt2 op = descriptor jt1 op.
Proof.
  intros Hwf Hap Hrun. unfold runActivator in *. unfold mbind, St_bind in *.
  destruct (runWrites ws jt) as [[] jtW|msg] eqn:Ew; [|discriminate].
  destruct new as [[op o]|].
  - cbn in Hap.
    rewrite (runWrites_after_install _ _ _ _ _ _ _ Hwf Hap Ew Hrun).
    pose proof (install_wf _ _ _ _ _ (runWrites_wf _ _ _ Hwf Ew) Hrun) as Hwf1.
    destruct (install op o jt1) as [[] jt2|msg] eqn:Ei; [|discriminate].
    exists jt2. split; [reflexivity|]. intros op'.
    rewrite (install_descriptor _ _ _ _ _ op' Hwf1 Ei).
    destruct (decide (op = op')) as [<-|Hne]; [|reflexivity].
    rewrite (install_descriptor _ _ _ _ _ op (runWrites_wf _ _ _ Hwf Ew) Hrun).
    rewrite decide_True by reflexivity. reflexivity.
  - injection Hrun as <-. rewrite (runWrites_idem _ _ _ Ew).
    exists jtW. split; reflexivity.
Qed.

Lemma tableOf_heap ops p :
  is_Some (heap (tableOf ops) !! p) <-> (p < length ops)%nat.
Proof.
  induction ops as [|op ops IH]; cbn.
  - rewrite lookup_empty. split; [intros [? ?]; discriminate|lia].
  - destruct (decide (length ops = p)) as [<-|Hne].
    + rewrite lookup_insert_eq. split; [lia|eauto].
    + rewrite lookup_insert_ne by exact Hne. rewrite IH. lia.
Qed.

Lemma tableOf_entries ops op p :
  entries (tableOf ops) !! op = Some p -> (p < length ops)%nat.
Proof.
  induction ops as [|op' ops IH]; cbn.
  - rewrite lookup_empty. discriminate.
  - destruct (decide (op' = op)) as [<-|Hne].
    + rewrite lookup_insert_eq. intros [= <-]. lia.
    + rewrite lookup_insert_ne by exact Hne. intros Hp. apply IH in Hp. lia.
Qed.

Lemma tableOf_wf ops : wf_table (tableOf ops).
Proof. intros op p Hp. apply tableOf_heap. eapply tableOf_entries, Hp. Qed.

Ltac step_writes :=
  repeat match goal with
         | |- context [setField ?op ?w ?jt] =>
             destruct (setField op w jt) as [[] ?|?]; try reflexivity
         end.

Section ActivatorProperties.
Context `{LegacyGas}.

(** Each registered activator has one of the listed shapes. *)
Lemma activators_shapes name enablerFn :
  activators !! name = Some enablerFn ->
  exists ws new, (name, (ws, new)) ∈ shapes /\ apart ws new /\
                 forall jt, enablerFn jt = runActivator ws new jt.
Proof.
  intros Hlook. unfold activators in Hlook.
  apply elem_of_list_to_map_2 in Hlook.
  unfold shapes.
  repeat (apply elem_of_cons in Hlook as [[= -> ->]|Hlook];
          [eexists _, _; split;
           [repeat (first [left; reflexivity | right]) |]|]).
  9: { apply elem_of_nil in Hlook. contradiction. }
  all: split;
    [ cbn; rewrite ?not_elem_of_cons; repeat split; try discriminate;
      try apply not_elem_of_nil; exact I
    | intros jt;
      unfold enable5656, enable3855, enable3529, enable3198, enable2929, enable2200,
        enable1884, enable1344, runActivator, writes3529, writes2929, writes2200,
        writes1884, set_constantGas, set_dynamicGas, newOp;
      cbn [runWrites]; unfold mbind, mret, St_bind, St_ret;
      step_writes; reflexivity ].
Qed.

(** A registered activator that returned once returns again, with equal
    descriptors. *)
Lemma activator_twice name enablerFn jt jt1 :
  activators !! name = Some enablerFn ->
  wf_table jt ->
  enablerFn jt = Done tt jt1 ->
  exists jt2, enablerFn jt1 = Done tt jt2 /\
              forall op, descriptor jt2 op = descriptor jt1 op.
Proof.
  intros Hlook Hwf Hrun.
  destruct (activators_shapes _ _ Hlook) as (ws & new & _ & Hap & Hshape).
  rewrite Hshape in *. eapply runActivator_idem; eassumption.
Qed.

(** C8. Every registered activator is idempotent: on every jump table
    (whose pointers are valid), applying the activator twice gives the
    outcome of applying it once: the same panic if an entry it assigns to is
    nil, and otherwise a table in which every opcode's descriptor (execute,
    constantGas, dynamicGas, minStack, maxStack) equals the one after the
    first application; for an activator that installs a new opcode, the
    second application puts an equal descriptor at that byte. *)
Theorem activators_idempotent name enablerFn jt :
  activators !! name = Some enablerFn ->
  wf_table jt ->
  same_descriptors ((enablerFn;; enablerFn) jt) (enablerFn jt).
Proof.
  intros Hlook Hwf. unfold mbind, St_bind.
  destruct (enablerFn jt) as [[] jt1|msg] eqn:Hrun; [|reflexivity].
  destruct (activator_twice _ _ _ _ Hlook Hwf Hrun) as (jt2 & -> & Hsame).
  exact Hsame.
Qed.
End ActivatorProperties.

(** EIP-1884 on a table that holds the opcodes it assigns to, and EIP-2929
    on an empty table, where it panics at the first assignment. *)
Lemma activators_idempotent_witness :
  same_descriptors ((enable1884;; enable1884) baseTable) (enable1884 baseTable)
  /\ same_descriptors ((@enable2929 flatLegacy;; @enable2929 flatLegacy) (tableOf []))
                       (@enable2929 flatLegacy (tableOf [])).
Proof.
  split.
  - exact (@activators_idempotent flatLegacy "ethereum_1884" enable1884 baseTable
             eq_refl (tableOf_wf _)).
  - exact (@activators_idempotent flatLegacy "ethereum_2929" enable2929 (tableOf [])
             eq_refl (tableOf_wf _)).
Defined.

Example enable1884_twice :
  exists jt1 jt2,
    enable1884 baseTable = Done tt jt1 /\ enable1884 jt1 = Done tt jt2 /\
    descriptor jt2 SELFBALANCE = descriptor jt1 SELFBALANCE /\
    (constantGas <$> descriptor jt2 SLOAD) = Some params.SloadGasEIP1884.
Proof. eexists _, _. repeat split; reflexivity. Qed.

(** ** Feature names *)

Lemma append_String c a b : (String c a ++ b)%string = String c (a ++ b)%string.
Proof. reflexivity. Qed.

Lemma append_Empty b : (EmptyString ++ b)%string = b.
Proof. reflexivity. Qed.

Lemma Split_nonempty s sep : Split s sep <> [].
Proof.
  destruct s as [|c s]; cbn; [discriminate|].
  destruct (Ascii.eqb c sep); [discriminate|].
  destruct (Split s sep); discriminate.
Qed.

Lemma Split_one s sep b :
  Split s sep = [b] -> s = b /\ Forall (fun c => c <> sep) (chars s).
Proof.
  revert b. induction s as [|c s IH]; intros b; cbn.
  - intros [= <-]. split; [reflexivity|constructor].
  - destruct (Ascii.eqb_spec c sep) as [->|Hne].
    + intros [= _ Hs]. destruct (Split_nonempty _ _ Hs).
    + destruct (Split s sep) as [|piece pieces] eqn:Es;
        [destruct (Split_nonempty _ _ Es)|].
      intros [= <- ->]. destruct (IH piece eq_refl) as [-> Hall].
        split; [reflexivity|]. constructor; assumption.
Qed.

Lemma Split_clean s sep :
  Forall (fun c => c <> sep) (chars s) -> Split s sep = [s].
Proof.
  induction s as [|c s IH]; cbn; [reflexivity|].
  intros Hall. apply Forall_cons in Hall as [Hc Hall].
  destruct (Ascii.eqb_spec c sep) as [->|_]; [contradiction|].
  change (list_ascii_of_string s) with (chars s) in Hall.
  rewrite (IH Hall). reflexivity.
Qed.

(** Exactly two pieces: one separator, between two texts without it. *)
Lemma Split_two s sep a b :
  Split s sep = [a; b] <->
  s = (a ++ String sep b)%string /\
  Forall (fun c => c <> sep) (chars a) /\ Forall (fun c => c <> sep) (chars b).
Proof.
  split.
  - revert a. induction s as [|c s IH]; intros a; cbn; [discriminate|].
    destruct (Ascii.eqb_spec c sep) as [->|Hne].
    + intros [= <- Hs]. apply Split_one in Hs as [-> Hall].
      split; [reflexivity|]. split; [constructor|exact Hall].
    + destruct (Split s sep) as [|piece pieces] eqn:Es;
        [destruct (Split_nonempty _ _ Es)|].
      intros [= <- ->]. destruct (IH piece eq_refl) as (-> & Ha & Hb).
      split; [reflexivity|]. split; [constructor; assumption|exact Hb].
  - intros (-> & Ha & Hb).
    induction a as [|c a IH]; rewrite ?append_String, ?append_Empty; cbn.
    + rewrite Ascii.eqb_refl. rewrite (Split_clean _ _ Hb). reflexivity.
    + apply Forall_cons in Ha as [Hc Ha].
      destruct (Ascii.eqb_spec c sep) as [->|_]; [contradiction|].
      rewrite (IH Ha). reflexivity.
Qed.

Lemma parseDigits_spec s n m :
  parseDigits s n = Some m <->
  Forall (fun c => isDigit c = true) (chars s) /\
  m = fold_left (fun n c => n * 10 + digitVal c) (chars s) n.
Proof.
  revert n. induction s as [|c s IH]; intros n; cbn.
  - split; [intros [= <-]; split; [constructor|reflexivity]|intros [_ ->]; reflexivity].
  - destruct (isDigit c) eqn:Ec.
    + rewrite IH. split; intros [Hall ->]; (split; [|reflexivity]).
      * constructor; assumption.
      * apply Forall_cons in Hall as [_ Hall]. exact Hall.
    + split; [discriminate|]. intros [Hall _].
      apply Forall_cons in Hall as [Hc _]. congruence.
Qed.

Lemma digits_nonneg s n :
  Forall (fun c => isDigit c = true) (chars s) -> 0 <= n ->
  0 <= fold_left (fun n c => n * 10 + digitVal c) (chars s) n.
Proof.
  unfold chars. revert n. induction s as [|c s IH]; intros n Hall Hn; cbn; [exact Hn|].
  apply Forall_cons in Hall as [Hc Hall]. apply IH; [exact Hall|].
  unfold isDigit in Hc. apply andb_true_iff in Hc as [H1 H2].
  apply Z.leb_le in H1. unfold digitVal. lia.
Qed.

Lemma digit_not_sign c :
  isDigit c = true -> Ascii.eqb c "-" = false /\ Ascii.eqb c "+" = false.
Proof.
  intros Hc. split; apply Ascii.eqb_neq; intros ->; vm_compute in Hc; discriminate.
Qed.

Lemma digit_not_underscore c : isDigit c = true -> c <> "_"%char.
Proof. intros Hc ->. vm_compute in Hc. discriminate. Qed.

(** [Atoi] returns without error exactly on the decimal [int] literals. *)
Lemma Atoi_intLiteral num : snd (Atoi num) = None <-> intLiteral num.
Proof.
  split.
  - destruct num as [|c rest]; [discriminate|]. unfold Atoi.
    set (neg := Ascii.eqb c "-").
    set (body := if neg || Ascii.eqb c "+" then rest else String c rest).
    intros Hok.
    assert (Hbody : body <> EmptyString /\ exists n, parseDigits body 0 = Some n /\
              (if neg then n <= 2 ^ 63 else n < 2 ^ 63)).
    { destruct body as [|d body']; [discriminate|]. split; [discriminate|].
      destruct (parseDigits (String d body') 0) as [n|]; [|discriminate].
      exists n. split; [reflexivity|].
      destruct neg.
      - destruct (2 ^ 63 <? n) eqn:E; [discriminate|]. apply Z.ltb_ge in E. exact E.
      - destruct (2 ^ 63 <=? n) eqn:E; [discriminate|]. apply Z.leb_gt in E. exact E. }
    clear Hok. destruct Hbody as (Hne & n & Hp & Hrange).
    apply parseDigits_spec in Hp as [Hall ->].
    pose proof (digits_nonneg body 0 Hall (Z.le_refl 0)) as Hnn.
    fold (decimalValue body) in Hrange, Hnn.
    subst body neg.
    destruct (Ascii.eqb_spec c "-") as [->|Hm]; cbn [orb] in *.
    + exists "-"%string, rest. rewrite append_String, append_Empty.
      change (String.eqb "-" "-") with true. cbv iota.
      repeat split; auto; lia.
    + destruct (Ascii.eqb_spec c "+") as [->|Hp].
      * exists "+"%string, rest. rewrite append_String, append_Empty.
        change (String.eqb "+" "-") with false. cbv iota.
        repeat split; auto; lia.
      * exists ""%string, (String c rest). rewrite append_Empty.
        change (String.eqb "" "-") with false. cbv iota.
        repeat split; auto; lia.
  - intros (sign & digits & -> & Hsign & Hne & Hall & Hrange).
    pose proof (digits_nonneg digits 0 Hall (Z.le_refl 0)) as Hnn.
    fold (decimalValue digits) in Hnn.
    assert (Hp : parseDigits digits 0 = Some (decimalValue digits))
      by (apply parseDigits_spec; split; [exact Hall|reflexivity]).
    destruct digits as [|d digits']; [contradiction|].
    destruct Hsign as [->|[->| ->]]; rewrite ?append_String, ?append_Empty;
      [ change (String.eqb "" "-") with false in Hrange
      | change (String.eqb "+" "-") with false in Hrange
      | change (String.eqb "-" "-") with true in Hrange ]; cbv iota in Hrange.
    + pose proof Hall as Hd. apply Forall_cons in Hd as [Hd _].
      destruct (digit_not_sign d Hd) as [E1 E2].
      unfold Atoi. rewrite E1, E2. cbn [orb]. rewrite Hp.
      destruct (2 ^ 63 <=? _) eqn:E; [apply Z.leb_le in E; lia|reflexivity].
    + unfold Atoi. cbn [Ascii.eqb orb Bool.eqb]. rewrite Hp.
      destruct (2 ^ 63 <=? _) eqn:E; [apply Z.leb_le in E; lia|reflexivity].
    + unfold Atoi. cbn [Ascii.eqb orb Bool.eqb]. rewrite Hp.
      destruct (2 ^ 63 <? _) eqn:E; [apply Z.ltb_lt in E; lia|reflexivity].
Qed.

Lemma intLiteral_clean num :
  intLiteral num -> Forall (fun c => c <> "_"%char) (chars num).
Proof.
  intros (sign & digits & -> & Hsign & _ & Hall & _).
  assert (Hd : Forall (fun c => c <> "_"%char) (chars digits)).
  { eapply Forall_impl; [exact Hall|]. intros c. apply digit_not_underscore. }
  destruct Hsign as [->|[->| ->]]; rewrite ?append_String, ?append_Empty;
    [exact Hd| |]; constructor; (discriminate || exact Hd).
Qed.

Lemma ValidateEIPName_structure eipName :
  ValidateEIPName eipName = None <-> nameStructure eipName.
Proof.
  unfold ValidateEIPName, nameStructure. split.
  - destruct (Split eipName "_") as [|a [|b [|? ?]]] eqn:Es; cbn; try discriminate.
    intros Hok. apply Split_two in Es as (-> & Ha & Hb).
    exists a, b. split; [reflexivity|]. split; [exact Ha|].
    apply Atoi_intLiteral. destruct (snd (Atoi b)); [discriminate|reflexivity].
  - intros (namespace & num & -> & Hns & Hint).
    assert (Hs : Split (namespace ++ "_" ++ num) "_" = [namespace; num]).
    { apply Split_two. split; [reflexivity|]. split; [exact Hns|].
      apply intLiteral_clean, Hint. }
    rewrite Hs. cbn. apply Atoi_intLiteral in Hint. rewrite Hint. reflexivity.
Qed.

Section FeatureNames.
Context `{LegacyGas}.

(** C7. A name that has no activator makes [EnableEIP] return the error
    "undefined eip <name>" with the jump table exactly as it was; and
    [ValidateEIPName], which does not consult the activators, accepts a
    name exactly when it is a namespace without underscore, one
    underscore, and a decimal [int]. *)
Theorem unknown_eip_rejected (eipName : string) (jt : JumpTable) :
  (activators !! eipName = None ->
   EnableEIP eipName jt
   = Done (Some (errorString ("undefined eip " ++ eipName))) jt)
  /\ (ValidateEIPName eipName = None <-> nameStructure eipName).
Proof.
  split.
  - intros Hnone. unfold EnableEIP. rewrite Hnone. reflexivity.
  - apply ValidateEIPName_structure.
Qed.
End FeatureNames.

(** A well-formed name without activator: rejected by [EnableEIP], table
    untouched; accepted by [ValidateEIPName]. *)
Lemma unknown_eip_rejected_witness :
  @EnableEIP flatLegacy "ethereum_9999" baseTable
  = Done (Some (errorString "undefined eip ethereum_9999")) baseTable
  /\ nameStructure "ethereum_9999".
Proof.
  destruct (@unknown_eip_rejected flatLegacy "ethereum_9999" baseTable) as [Hen Hval].
  split.
  - apply Hen. reflexivity.
  - apply Hval. reflexivity.
Defined.

(** The names of the specification: a missing underscore, a second
    underscore, a number that is not an [int]. *)
Example validate_no_underscore : ValidateEIPName "ethereum5656" <> None.
Proof. discriminate. Qed.

Example validate_two_underscores : ValidateEIPName "my_chain_5656" <> None.
Proof. discriminate. Qed.

Example validate_out_of_range : ValidateEIPName "ethereum_9223372036854775808" <> None.
Proof. discriminate. Qed.

Example validate_registered : ValidateEIPName "ethereum_5656" = None.
Proof. reflexivity. Qed.

(** ** Moving bytes inside the memory *)

Lemma moveForward_lookup st d s n i :
  (d <= s)%nat -> (s + n <= length st)%nat ->
  moveForward st d s n !! i
  = if decide (d <= i < d + n)%nat then st !! (s + (i - d))%nat else st !! i.
Proof.
  revert st d s. induction n as [|n IH]; intros st d s Hds Hlen; cbn.
  - case_decide; [lia|reflexivity].
  - rewrite IH by (rewrite ?length_insert; lia).
    destruct (lookup_lt_is_Some_2 st s ltac:(lia)) as [x Hx]. rewrite Hx. cbn.
    do 2 case_decide; try lia.
    + rewrite list_lookup_insert_ne by lia.
      replace (S (s + (i - S d))) with (s + (i - d))%nat by lia. reflexivity.
    + assert (i = d) as -> by lia.
      rewrite list_lookup_insert_eq by lia.
      replace (s + (d - d))%nat with s by lia. symmetry. exact Hx.
    + rewrite list_lookup_insert_ne by lia. reflexivity.
Qed.

Lemma moveBackward_lookup st d s n i :
  (s <= d)%nat -> (d + n <= length st)%nat ->
  moveBackward st d s n !! i
  = if decide (d <= i < d + n)%nat then st !! (s + (i - d))%nat else st !! i.
Proof.
  revert st. induction n as [|n IH]; intros st Hsd Hlen; cbn.
  - case_decide; [lia|reflexivity].
  - rewrite IH by (rewrite ?length_insert; lia).
    destruct (lookup_lt_is_Some_2 st (s + n) ltac:(lia)) as [x Hx]. rewrite Hx. cbn.
    do 2 case_decide; try lia.
    + rewrite list_lookup_insert_ne by lia. reflexivity.
    + assert (i = d + n)%nat as -> by lia.
      rewrite list_lookup_insert_eq by lia.
      replace (s + (d + n - d))%nat with (s + n)%nat by lia. symmetry. exact Hx.
    + rewrite list_lookup_insert_ne by lia. reflexivity.
Qed.

Lemma copyViaBuffer_lookup st d s n i :
  (s + n <= length st)%nat -> (d + n <= length st)%nat ->
  copyViaBuffer st d s n !! i
  = if decide (d <= i < d + n)%nat then st !! (s + (i - d))%nat else st !! i.
Proof.
  intros Hs Hd. unfold copyViaBuffer.
  assert (Hlt : length (take d st) = d) by (rewrite length_take; lia).
  assert (Hlb : length (take n (drop s st)) = n)
    by (rewrite length_take, length_drop; lia).
  destruct (decide (i < d)%nat) as [Hi|Hi].
  - rewrite lookup_app_l by lia. rewrite lookup_take_lt by lia.
    case_decide; [lia|reflexivity].
  - rewrite lookup_app_r by lia. rewrite Hlt.
    destruct (decide (i < d + n)%nat) as [Hin|Hin].
    + rewrite lookup_app_l by lia. rewrite lookup_take_lt by lia.
      rewrite lookup_drop. case_decide; [reflexivity|lia].
    + rewrite lookup_app_r by lia. rewrite Hlb, lookup_drop.
      case_decide; [lia|].
      replace (d + n + (i - d - n))%nat with i by lia. reflexivity.
Qed.

(** The byte-wise move, in either direction, is the copy through a buffer. *)
Lemma memmove_copyViaBuffer st d s n :
  (s + n <= length st)%nat -> (d + n <= length st)%nat ->
  memmove st d s n = copyViaBuffer st d s n.
Proof.
  intros Hs Hd. apply list_eq. intros i.
  rewrite copyViaBuffer_lookup by assumption. unfold memmove.
  destruct (Nat.leb_spec d s).
  - apply moveForward_lookup; lia.
  - apply moveBackward_lookup; lia.
Qed.

(** ** MCOPY: the gas function *)

Lemma Uint64_range w : 0 <= uint256.Uint64 w < 2 ^ 64.
Proof. apply Z.mod_pos_bound. reflexivity. Qed.

Lemma wrap64_range z : 0 <= wrap64 z < 2 ^ 64.
Proof. apply Z.mod_pos_bound. reflexivity. Qed.

Lemma high_word z : 0 <= z -> negb (z / 2 ^ 64 =? 0) = (2 ^ 64 <=? z).
Proof.
  intros Hz. destruct (Z.leb_spec (2 ^ 64) z) as [Hge|Hlt].
  - apply negb_true_iff, Z.eqb_neq. intros Hd.
    apply Z.div_small_iff in Hd; lia.
  - apply negb_false_iff, Z.eqb_eq, Z.div_small. lia.
Qed.

Lemma SafeAdd_spec x y :
  0 <= x -> 0 <= y ->
  math.SafeAdd x y = (wrap64 (x + y), 2 ^ 64 <=? x + y).
Proof. intros Hx Hy. unfold math.SafeAdd. rewrite high_word by lia. reflexivity. Qed.

Lemma SafeMul_spec x y :
  0 <= x -> 0 <= y ->
  math.SafeMul x y = (wrap64 (x * y), 2 ^ 64 <=? x * y).
Proof. intros Hx Hy. unfold math.SafeMul. rewrite high_word by lia. reflexivity. Qed.

Lemma wrap64_small z : 0 <= z -> (2 ^ 64 <=? z) = false -> wrap64 z = z.
Proof. intros Hz Hlt. apply Z.leb_gt in Hlt. apply Z.mod_small. lia. Qed.

(** [memoryGasCost] never panics, returns a 64-bit charge, and fails only
    with the overflow error and a zero charge. *)
Lemma memoryGasCost_result newMemSize fr :
  exists gas err fr',
    memoryGasCost newMemSize fr = Done (gas, err) fr' /\
    0 <= gas < 2 ^ 64 /\
    (err = None \/ (err = Some ErrGasUintOverflow /\ gas = 0)).
Proof.
  unfold memoryGasCost.
  destruct (newMemSize =? 0); [exists 0, None, fr; repeat split; auto; lia|].
  destruct (newMemSize >? 137438953440);
    [exists 0, (Some ErrGasUintOverflow), fr; repeat split; auto; lia|].
  run. cbn.
  destruct (_ >? _).
  - eexists _, _, _. split; [reflexivity|]. split; [apply wrap64_range|left; reflexivity].
  - exists 0, None, fr. repeat split; auto; lia.
Qed.

(** The growth cost does not look at the stack. *)
Lemma memoryGasCost_setStack n st fr :
  memoryGasCost n (setStack st fr) = withStack st (memoryGasCost n fr).
Proof.
  unfold memoryGasCost.
  destruct (n =? 0); [reflexivity|]. destruct (n >? 137438953440); [reflexivity|].
  run. cbn. destruct (_ >? _); reflexivity.
Qed.

(** What [gasMCopy] computes from the three operands, zero length
    included. *)
Lemma gasMCopy_eq (memorySize : uint64) (fr : Frame) (w0 w1 w2 : uint256)
    (rest : list uint256) :
  Stack fr = w0 :: w1 :: w2 :: rest ->
  let length := uint256.Uint64 w0 in
  let src := uint256.Uint64 w1 in
  let dst := uint256.Uint64 w2 in
  gasMCopy memorySize fr
  = (if (2 ^ 64 <=? dst + length) || (2 ^ 64 <=? src + length)
     then Done (0, Some ErrGasUintOverflow) fr
     else
       match memoryGasCost (Z.max (src + length) (dst + length)) fr with
       | Done (memGas, None) fr' =>
           if (2 ^ 64 <=? 3 * length) || (2 ^ 64 <=? memGas + 3 * length)
           then Done (0, Some ErrGasUintOverflow) fr'
           else Done (memGas + 3 * length, None) fr'
       | Done (_, Some err) fr' => Done (0, Some err) fr'
       | Panic msg => Panic msg
       end).
Proof.
  intros Hst length src dst.
  pose proof (Uint64_range w0) as Hl. pose proof (Uint64_range w1) as Hs.
  pose proof (Uint64_range w2) as Hd. fold length in Hl. fold src in Hs. fold dst in Hd.
  destruct fr as [e c st m]. cbn in Hst. subst st.
  unfold gasMCopy. run. cbn [lookup list_lookup Stack].
  fold length src dst.
  rewrite (SafeAdd_spec dst length), (SafeAdd_spec src length) by lia.
  destruct (2 ^ 64 <=? dst + length) eqn:Ed; [reflexivity|].
  destruct (2 ^ 64 <=? src + length) eqn:Es; [reflexivity|].
  cbn [orb]. rewrite !wrap64_small by (assumption || lia).
  replace (if src + length >? dst + length then src + length else dst + length)
    with (Z.max (src + length) (dst + length))
    by (destruct (Z.gtb_spec (src + length) (dst + length)); lia).
  destruct (memoryGasCost_result (Z.max (src + length) (dst + length))
              (mkFrame e c (w0 :: w1 :: w2 :: rest) m))
    as (memGas & err & fr' & -> & Hg & Herr).
  cbn [fst snd]. destruct err as [err|]; [reflexivity|].
  rewrite (SafeMul_spec 3 length) by lia.
  destruct (2 ^ 64 <=? 3 * length) eqn:Em; [reflexivity|].
  rewrite wrap64_small by (assumption || lia).
  rewrite (SafeAdd_spec memGas (3 * length)) by lia.
  destruct (2 ^ 64 <=? memGas + 3 * length) eqn:Et; [reflexivity|].
  rewrite wrap64_small by (assumption || lia). reflexivity.
Qed.

(** The charge in terms of the 64-bit values [length], [src] and [dst] that
    the function extracts from the stack words, for a non-zero [length]: the
    memory growth cost of [max(src+length, dst+length)] plus [3 * length],
    computed without wrap-around; if [dst+length], [src+length], the growth
    cost, [3 * length] or the final sum does not fit 64 bits the function
    returns a zero charge with [ErrGasUintOverflow]; it returns no other
    error and does not panic. *)
Theorem gasMCopy_charge (memorySize : uint64) (fr : Frame) (w0 w1 w2 : uint256)
    (rest : list uint256) :
  Stack fr = w0 :: w1 :: w2 :: rest ->
  uint256.Uint64 w0 <> 0 ->
  let length := uint256.Uint64 w0 in
  let src := uint256.Uint64 w1 in
  let dst := uint256.Uint64 w2 in
  gasMCopy memorySize fr
  = (if (2 ^ 64 <=? dst + length) || (2 ^ 64 <=? src + length)
     then Done (0, Some ErrGasUintOverflow) fr
     else
       match memoryGasCost (Z.max (src + length) (dst + length)) fr with
       | Done (memGas, None) fr' =>
           if (2 ^ 64 <=? 3 * length) || (2 ^ 64 <=? memGas + 3 * length)
           then Done (0, Some ErrGasUintOverflow) fr'
           else Done (memGas + 3 * length, None) fr'
       | Done (_, Some err) fr' => Done (0, Some err) fr'
       | Panic msg => Panic msg
       end)
  /\ (forall gas err fr', gasMCopy memorySize fr = Done (gas, Some err) fr' ->
      gas = 0 /\ err = ErrGasUintOverflow)
  /\ (forall msg, gasMCopy memorySize fr <> Panic msg).
Proof.
  intros Hst Hlen length src dst.
  pose proof (gasMCopy_eq memorySize fr w0 w1 w2 rest Hst) as Heq. cbv zeta in Heq.
  fold length src dst in Heq.
  split; [exact Heq|].
  destruct (memoryGasCost_result (Z.max (src + length) (dst + length)) fr)
    as (memGas & err & fr1 & Hm & Hg & Herr).
  rewrite Heq, Hm.
  split.
  - intros gas e fr'.
    destruct (_ || _); [intros [= <- <- _]; auto|].
    destruct Herr as [->|[-> ->]].
    + destruct (_ || _); [intros [= <- <- _]; auto|discriminate].
    + intros [= <- <- _]; auto.
  - intros msg. destruct (_ || _); [discriminate|].
    destruct err; [discriminate|]. destruct (_ || _); discriminate.
Qed.

(** A stack that the gas function accepts has both ranges end within
    [0x1FFFFFFFE0]. *)
Lemma gasMCopy_accepts_bounded (memorySize : uint64) (fr : Frame) (w0 w1 w2 : uint256)
    (rest : list uint256) gas fr' :
  Stack fr = w0 :: w1 :: w2 :: rest ->
  gasMCopy memorySize fr = Done (gas, None) fr' ->
  uint256.Uint64 w1 + uint256.Uint64 w0 <= 137438953440 /\
  uint256.Uint64 w2 + uint256.Uint64 w0 <= 137438953440.
Proof.
  intros Hst. rewrite (gasMCopy_eq memorySize fr w0 w1 w2 rest Hst). cbv zeta.
  destruct (_ || _); [discriminate|].
  unfold memoryGasCost.
  destruct (Z.eqb_spec (Z.max (uint256.Uint64 w1 + uint256.Uint64 w0)
                          (uint256.Uint64 w2 + uint256.Uint64 w0)) 0) as [Hz|_].
  - intros _. pose proof (Uint64_range w0). pose proof (Uint64_range w1).
    pose proof (Uint64_range w2). lia.
  - destruct (Z.gtb_spec (Z.max (uint256.Uint64 w1 + uint256.Uint64 w0)
                            (uint256.Uint64 w2 + uint256.Uint64 w0)) 137438953440)
      as [|Hle]; [discriminate|].
    intros _. lia.
Qed.

(** A copy of 32 bytes to offset 64 in an empty memory: three words of
    growth (9) plus 96; with the three words already paid for, 96. *)
Lemma gasMCopy_charge_witness :
  gasMCopy 0 (frameOf emptyDB 7 10000 [32; 0; 64] [])
  = Done (105, None)
      (setMemory (mkMemory [] 9) (frameOf emptyDB 7 10000 [32; 0; 64] [])).
Proof.
  destruct (gasMCopy_charge 0 (frameOf emptyDB 7 10000 [32; 0; 64] []) 32 0 64 [])
    as [Heq _].
  - reflexivity.
  - vm_compute. discriminate.
  - rewrite Heq. vm_compute. reflexivity.
Defined.

Example gasMCopy_no_growth :
  gasMCopy 0 (mkFrame (mkEVM emptyDB 0 (Some 1) (Some 0)) (mkContract 7 10000) [32; 0; 64]
                (mkMemory (replicate 96 0) 9))
  = Done (96, None)
      (mkFrame (mkEVM emptyDB 0 (Some 1) (Some 0)) (mkContract 7 10000) [32; 0; 64]
         (mkMemory (replicate 96 0) 9)).
Proof. vm_compute. reflexivity. Qed.

Example gasMCopy_overflow :
  gasMCopy 0 (frameOf emptyDB 7 10000 [2; 2 ^ 64 - 1; 0] [])
  = Done (0, Some ErrGasUintOverflow) (frameOf emptyDB 7 10000 [2; 2 ^ 64 - 1; 0] []).
Proof. vm_compute. reflexivity. Qed.

(** C4 (the code at the failing inputs). The three operands are 256-bit
    words, and [gasMCopy] prices their low 64 bits: whatever a word holds
    from bit 64 upwards is dropped by the conversion, without a check and
    without an error. A length of [2^64] costs nothing, a length of
    [2^64 + 32] costs what 32 bytes cost, and so does a length of 32 at
    offsets of [2^64] and [2^64 + 64]; after that [opMCopy], which converts
    in the same way, copies 32 bytes. *)
Lemma gasMCopy_wide_operands_wrap :
  (forall (memorySize : uint64) (fr : Frame) (w0 w1 w2 h0 h1 h2 : uint256)
          (rest : list uint256),
     withStack rest
       (gasMCopy memorySize
          (setStack (w0 + h0 * 2 ^ 64 :: w1 + h1 * 2 ^ 64 :: w2 + h2 * 2 ^ 64 :: rest) fr))
     = withStack rest (gasMCopy memorySize (setStack (w0 :: w1 :: w2 :: rest) fr)))
  /\ gasMCopy 0 (frameOf emptyDB 7 10000 [2 ^ 64; 0; 0] [])
     = Done (0, None) (frameOf emptyDB 7 10000 [2 ^ 64; 0; 0] [])
  /\ gasMCopy 0 (frameOf emptyDB 7 10000 [2 ^ 64 + 32; 0; 64] [])
     = Done (105, None)
         (setMemory (mkMemory [] 9) (frameOf emptyDB 7 10000 [2 ^ 64 + 32; 0; 64] []))
  /\ gasMCopy 0 (frameOf emptyDB 7 10000 [32; 2 ^ 64; 2 ^ 64 + 64] [])
     = Done (105, None)
         (setMemory (mkMemory [] 9) (frameOf emptyDB 7 10000 [32; 2 ^ 64; 2 ^ 64 + 64] []))
  /\ opMCopy (setMemory (mkMemory [] 9) (frameOf emptyDB 7 10000 [2 ^ 64 + 32; 0; 64] []))
     = Done ([], None)
         (setMemory (mkMemory (replicate 96 0) 9) (frameOf emptyDB 7 10000 [] [])).
Proof.
  split; [|repeat split; vm_compute; reflexivity].
  intros memorySize fr w0 w1 w2 h0 h1 h2 rest.
  rewrite (gasMCopy_eq memorySize
             (setStack (w0 + h0 * 2 ^ 64 :: w1 + h1 * 2 ^ 64 :: w2 + h2 * 2 ^ 64 :: rest) fr)
             (w0 + h0 * 2 ^ 64) (w1 + h1 * 2 ^ 64) (w2 + h2 * 2 ^ 64) rest) by reflexivity.
  rewrite (gasMCopy_eq memorySize (setStack (w0 :: w1 :: w2 :: rest) fr) w0 w1 w2 rest)
    by reflexivity.
  cbv zeta. unfold uint256.Uint64. rewrite !Z_mod_plus_full.
  rewrite !memoryGasCost_setStack.
  destruct (_ || _); [destruct fr; reflexivity|].
  destruct (memoryGasCost _ fr) as [[memGas [err|]] fr'|msg]; cbn;
    [destruct fr'; reflexivity| |reflexivity].
  destruct (_ || _); destruct fr'; reflexivity.
Qed.

(** With a zero length the gas function charges the growth of the memory up
    to the larger of the two offsets. *)
Lemma gasMCopy_zero_length (memorySize : uint64) (fr : Frame) (w0 w1 w2 : uint256)
    (rest : list uint256) :
  Stack fr = w0 :: w1 :: w2 :: rest ->
  uint256.Uint64 w0 = 0 ->
  gasMCopy memorySize fr
  = match memoryGasCost (Z.max (uint256.Uint64 w1) (uint256.Uint64 w2)) fr with
    | Done (memGas, None) fr' => Done (memGas, None) fr'
    | Done (_, Some err) fr' => Done (0, Some err) fr'
    | Panic msg => Panic msg
    end.
Proof.
  intros Hst Hz. rewrite (gasMCopy_eq memorySize fr w0 w1 w2 rest Hst). cbv zeta.
  rewrite Hz, !Z.add_0_r.
  pose proof (Uint64_range w1) as H1. pose proof (Uint64_range w2) as H2.
  destruct (Z.leb_spec (2 ^ 64) (uint256.Uint64 w2)); [lia|].
  destruct (Z.leb_spec (2 ^ 64) (uint256.Uint64 w1)); [lia|].
  cbn [orb].
  destruct (memoryGasCost_result (Z.max (uint256.Uint64 w1) (uint256.Uint64 w2)) fr)
    as (memGas & err & fr' & -> & Hg & _).
  destruct err; [reflexivity|].
  change (3 * 0) with 0. rewrite Z.add_0_r.
  destruct (Z.leb_spec (2 ^ 64) memGas); [lia|]. reflexivity.
Qed.

(** C2 (the code at the failing inputs). With length zero the gas function
    still prices the memory up to the larger offset: it charges 6 for an
    offset of 64 in an empty memory, and fails with the overflow error for
    an offset of [2^64 - 1]; the execute function, on the same stack,
    returns at once. *)
Lemma gasMCopy_zero_length_charged :
  gasMCopy 0 (frameOf emptyDB 7 10000 [0; 64; 0] [])
  = Done (6, None) (setMemory (mkMemory [] 6) (frameOf emptyDB 7 10000 [0; 64; 0] []))
  /\ gasMCopy 0 (frameOf emptyDB 7 10000 [0; 2 ^ 64 - 1; 0] [])
     = Done (0, Some ErrGasUintOverflow) (frameOf emptyDB 7 10000 [0; 2 ^ 64 - 1; 0] [])
  /\ opMCopy (frameOf emptyDB 7 10000 [0; 2 ^ 64 - 1; 0] [])
     = Done ([], None) (frameOf emptyDB 7 10000 [] []).
Proof. repeat split; vm_compute; reflexivity. Qed.

(** ** MCOPY: the execute function *)

Lemma wrap_int64_small z : 0 <= z < 2 ^ 63 -> wrap_int64 z = z.
Proof. intros Hz. unfold wrap_int64. rewrite Z.mod_small by lia. lia. Qed.

Lemma grown_length st n : length (grown st n) = Nat.max (length st) n.
Proof. unfold grown. rewrite length_app, length_replicate. lia. Qed.

Lemma Resize_grown size fr :
  0 <= size ->
  Memory_Resize size fr
  = Done tt (setMemory (mkMemory (grown (store (memory fr)) (Z.to_nat size))
                                 (lastGasCost (memory fr))) fr).
Proof.
  intros Hsize. unfold Memory_Resize, Memory_Len, grown.
  destruct (Z.ltb_spec (Z.of_nat (length (store (memory fr)))) size) as [Hlt|Hge].
  - rewrite Z2Nat.inj_sub, Nat2Z.id by lia. reflexivity.
  - replace (Z.to_nat size - length (store (memory fr)))%nat with 0%nat by lia.
    cbn. rewrite app_nil_r. destruct fr as [e c st [bytes cost]]. reflexivity.
Qed.

(** With a zero length nothing but the stack changes, whatever the offsets. *)
Lemma opMCopy_zero_length fr w0 w1 w2 rest :
  Stack fr = w0 :: w1 :: w2 :: rest -> uint256.Uint64 w0 = 0 ->
  opMCopy fr = Done ([], None) (setStack rest fr).
Proof.
  intros Hst Hz. destruct fr as [e c st m]. cbn in Hst. subst st.
  unfold opMCopy. run. cbn. rewrite Hz. reflexivity.
Qed.

(** The copy itself: for a non-zero length and ranges ending below [2^63]
    the memory is grown to the larger end and ends up as after a copy through
    a buffer. *)
Lemma opMCopy_via_buffer (fr : Frame) (w0 w1 w2 : uint256) (rest : list uint256) :
  Stack fr = w0 :: w1 :: w2 :: rest ->
  let length := uint256.Uint64 w0 in
  let dst := uint256.Uint64 w1 in
  let src := uint256.Uint64 w2 in
  length <> 0 -> src + length < 2 ^ 63 -> dst + length < 2 ^ 63 ->
  opMCopy fr
  = Done ([], None)
      (setMemory
         (mkMemory
            (copyViaBuffer
               (grown (store (memory fr))
                      (Z.to_nat (Z.max (src + length) (dst + length))))
               (Z.to_nat dst) (Z.to_nat src) (Z.to_nat length))
            (lastGasCost (memory fr)))
         (setStack rest fr)).
Proof.
  intros Hst length dst src Hlen Hsrc Hdst.
  pose proof (Uint64_range w0) as Hl. pose proof (Uint64_range w1) as Hd.
  pose proof (Uint64_range w2) as Hs. fold length in Hl. fold dst in Hd. fold src in Hs.
  destruct fr as [e c st m]. cbn in Hst. subst st.
  unfold opMCopy. run. cbn [Stack setStack evm contract memory].
  fold length dst src.
  destruct (Z.eqb_spec length 0) as [|_]; [contradiction|].
  rewrite (SafeAdd_spec src length), (SafeAdd_spec dst length) by lia.
  assert (Hfs : (2 ^ 64 <=? src + length) = false) by (apply Z.leb_gt; lia).
  assert (Hfd : (2 ^ 64 <=? dst + length) = false) by (apply Z.leb_gt; lia).
  rewrite Hfs, Hfd. cbn [orb].
  rewrite !wrap64_small by (assumption || lia).
  replace (if dst + length >? src + length then dst + length else src + length)
    with (Z.max (src + length) (dst + length))
    by (destruct (Z.gtb_spec (dst + length) (src + length)); lia).
  set (maxEnd := Z.max (src + length) (dst + length)).
  rewrite Resize_grown by lia.
  cbn [Stack setStack setMemory evm contract memory store lastGasCost].
  set (st := grown (store m) (Z.to_nat maxEnd)).
  assert (Hlst : Z.of_nat (List.length st)
                 = Z.max (Z.of_nat (List.length (store m))) maxEnd).
  { subst st. rewrite grown_length. lia. }
  unfold Memory_GetPtr, Memory_Set, Memory_Len, int64, add64.
  cbn [Stack setStack setMemory evm contract memory store lastGasCost].
  rewrite !wrap_int64_small by lia.
  destruct (Z.eqb_spec length 0) as [|_]; [contradiction|].
  destruct (Z.gtb_spec (Z.of_nat (List.length st)) src) as [_|]; [|lia].
  destruct (Z.leb_spec 0 src) as [_|]; [|lia].
  destruct (Z.leb_spec src (src + length)) as [_|]; [|lia].
  destruct (Z.leb_spec (src + length) (Z.of_nat (List.length st))) as [_|]; [|lia].
  cbn [andb Stack setStack setMemory evm contract memory store lastGasCost].
  destruct (Z.gtb_spec length 0) as [_|]; [|lia].
  rewrite wrap64_small by (assumption || lia).
  destruct (Z.gtb_spec (dst + length) (Z.of_nat (List.length st))) as [|_]; [lia|].
  unfold copy. rewrite Nat.min_id.
  rewrite memmove_copyViaBuffer by lia.
  reflexivity.
Qed.



(** The same on the code itself, in both directions. *)
Example opMCopy_forward_overlap :
  opMCopy (frameOf emptyDB 7 10000 [4; 2; 0] [1; 2; 3; 4; 5; 6; 7; 8])
  = Done ([], None) (frameOf emptyDB 7 10000 [] [1; 2; 1; 2; 3; 4; 7; 8]).
Proof. vm_compute. reflexivity. Qed.

Example opMCopy_backward_overlap :
  opMCopy (frameOf emptyDB 7 10000 [4; 0; 2] [1; 2; 3; 4; 5; 6; 7; 8])
  = Done ([], None) (frameOf emptyDB 7 10000 [] [3; 4; 5; 6; 5; 6; 7; 8]).
Proof. vm_compute. reflexivity. Qed.

Example opMCopy_grows_memory :
  opMCopy (frameOf emptyDB 7 10000 [2; 3; 0] [1; 2])
  = Done ([], None) (frameOf emptyDB 7 10000 [] [1; 2; 0; 1; 2]).
Proof. vm_compute. reflexivity. Qed.

(** After the gas function has accepted the stack, no further bound is
    needed: the copy through the buffer is what [opMCopy] does. *)
Corollary opMCopy_after_gas (memorySize : uint64) (fr0 fr1 fr : Frame)
    (w0 w1 w2 : uint256) (rest : list uint256) (gas : uint64) :
  Stack fr0 = w0 :: w1 :: w2 :: rest ->
  gasMCopy memorySize fr0 = Done (gas, None) fr1 ->
  Stack fr = w0 :: w1 :: w2 :: rest ->
  uint256.Uint64 w0 <> 0 ->
  opMCopy fr
  = Done ([], None)
      (setMemory
         (mkMemory
            (copyViaBuffer
               (grown (store (memory fr))
                      (Z.to_nat (Z.max (uint256.Uint64 w2 + uint256.Uint64 w0)
                                       (uint256.Uint64 w1 + uint256.Uint64 w0))))
               (Z.to_nat (uint256.Uint64 w1)) (Z.to_nat (uint256.Uint64 w2))
               (Z.to_nat (uint256.Uint64 w0)))
            (lastGasCost (memory fr)))
         (setStack rest fr)).
Proof.
  intros Hst0 Hgas Hst Hlen.
  destruct (gasMCopy_accepts_bounded _ _ _ _ _ _ _ _ Hst0 Hgas) as [H1 H2].
  apply (opMCopy_via_buffer fr w0 w1 w2 rest Hst); [exact Hlen|lia|lia].
Qed.

(** ** The access list only grows *)

Lemma warmth_kept_refl fr : warmth_kept fr fr.
Proof. split; reflexivity. Qed.

Lemma warmth_kept_trans fr1 fr2 fr3 :
  warmth_kept fr1 fr2 -> warmth_kept fr2 fr3 -> warmth_kept fr1 fr3.
Proof. intros [H1 H2] [H3 H4]. split; etrans; eassumption. Qed.

Lemma keeps_ret {A} (a : A) : keeps_warm (mret a : M A).
Proof. intros fr a' fr' [= _ <-]. apply warmth_kept_refl. Qed.

Lemma keeps_bind {A B} (m : M A) (f : A -> M B) :
  keeps_warm m -> (forall a, keeps_warm (f a)) -> keeps_warm (m ≫= f).
Proof.
  intros Hm Hf fr b fr'. unfold mbind, St_bind.
  destruct (m fr) as [a fr1|msg] eqn:Em; [|discriminate].
  intros Hb. eapply warmth_kept_trans; [eapply Hm, Em|eapply Hf, Hb].
Qed.

Lemma keeps_panic {A} msg : keeps_warm (panic msg : M A).
Proof. intros fr a fr'. discriminate. Qed.

Lemma keeps_gets {A} (f : Frame -> A) : keeps_warm (gets f).
Proof. intros fr a fr' [= _ <-]. apply warmth_kept_refl. Qed.

Lemma keeps_readDB {A} (f : StateDB -> A) : keeps_warm (readDB f).
Proof. apply keeps_gets. Qed.

Lemma keeps_Back n : keeps_warm (Back n).
Proof.
  intros fr a fr'. unfold Back. destruct (Stack fr !! n); [|discriminate].
  intros [= _ <-]. apply warmth_kept_refl.
Qed.

Lemma keeps_Peek : keeps_warm Peek.
Proof. apply keeps_Back. Qed.

Lemma keeps_writeDB (f : StateDB -> StateDB) :
  (forall db, accessedSlots db ⊆ accessedSlots (f db) /\
              accessedAddresses db ⊆ accessedAddresses (f db)) ->
  keeps_warm (writeDB f).
Proof.
  intros Hf fr a fr' [= _ <-]. destruct fr as [[db ? ? ?] ? ? ?]. exact (Hf db).
Qed.

Lemma keeps_useGas gas : keeps_warm (useGas gas).
Proof.
  intros fr a fr' [= _ <-]. destruct fr as [[? ? ? ?] ? ? ?]. split; reflexivity.
Qed.

Lemma keeps_modify_contract (f : Frame -> Contract) :
  keeps_warm (modify (fun fr => setContract (f fr) fr)).
Proof.
  intros fr a fr' [= _ <-]. destruct fr as [[? ? ? ?] ? ? ?]. split; reflexivity.
Qed.

Lemma keeps_modify_memory (m : Memory) : keeps_warm (modify (setMemory m)).
Proof.
  intros fr a fr' [= _ <-]. destruct fr as [[? ? ? ?] ? ? ?]. split; reflexivity.
Qed.

Lemma AddSlot_grows a k db :
  accessedSlots db ⊆ accessedSlots (statedb.AddSlotToAccessList a k db) /\
  accessedAddresses db ⊆ accessedAddresses (statedb.AddSlotToAccessList a k db).
Proof. cbn. split; set_solver. Qed.

Lemma AddAddress_grows a db :
  accessedSlots db ⊆ accessedSlots (statedb.AddAddressToAccessList a db) /\
  accessedAddresses db ⊆ accessedAddresses (statedb.AddAddressToAccessList a db).
Proof. cbn. split; set_solver. Qed.

Lemma AddRefund_grows g db :
  accessedSlots db ⊆ accessedSlots (statedb.AddRefund g db) /\
  accessedAddresses db ⊆ accessedAddresses (statedb.AddRefund g db).
Proof. cbn. split; reflexivity. Qed.

Lemma SubRefund_grows g db :
  accessedSlots db ⊆ accessedSlots (statedb.SubRefund g db) /\
  accessedAddresses db ⊆ accessedAddresses (statedb.SubRefund g db).
Proof. cbn. split; reflexivity. Qed.

Create HintDb warm.
#[local] Hint Resolve keeps_ret keeps_panic keeps_gets keeps_readDB keeps_Back keeps_Peek
  keeps_useGas keeps_modify_contract keeps_modify_memory : warm.
#[local] Hint Resolve AddSlot_grows AddAddress_grows AddRefund_grows SubRefund_grows : warm.

Ltac keeps :=
  repeat first
    [ solve [auto with warm]
    | apply keeps_writeDB; intros ?; solve [auto with warm]
    | apply keeps_bind; [|intros ?]
    | match goal with
      | |- keeps_warm (if ?b then _ else _) => destruct b
      | |- keeps_warm (match ?x with _ => _ end) => destruct x
      end ].

Lemma keeps_memoryGasCost n : keeps_warm (memoryGasCost n).
Proof. unfold memoryGasCost. keeps. Qed.
#[local] Hint Resolve keeps_memoryGasCost : warm.

(** No gas function of operations_acl.go takes a slot or an address out of
    the access list. *)
Lemma acl_gas_functions_keep_warm g memorySize :
  acl_gas_function g -> keeps_warm (g memorySize).
Proof.
  intros [clearingRefund| |old Hold| |old Hold|refundsEnabled| | |].
  - unfold makeGasSStoreFunc. keeps.
  - unfold gasSLoadEIP2929. keeps.
  - unfold gasExtCodeCopyEIP2929. pose proof (Hold memorySize). keeps.
  - unfold gasEip2929AccountCheck. keeps.
  - unfold makeCallVariantGasCallEIP2929. pose proof (Hold memorySize). keeps.
  - unfold makeSelfdestructGasFn. keeps.
  - unfold gasMCopy. keeps.
  - unfold gasCreateEIP3860. keeps.
  - unfold gasCreate2EIP3860, gasCreateEIP3860. keeps.
Qed.

(** ** SLOAD *)

Lemma hits_unshared jt q op ws :
  unshared jt -> entries jt !! op = Some q ->
  hits (entries jt) q ws = (filter (fun x => x.1 = op) ws).*2.
Proof.
  intros Hun Hq. unfold hits. f_equal.
  induction ws as [|x ws IH]; [reflexivity|].
  destruct (decide (x.1 = op)) as [Hx|Hx].
  - rewrite !filter_cons_True by congruence. f_equal. exact IH.
  - rewrite !filter_cons_False; [exact IH|exact Hx|].
    intros Hx'. apply Hx. exact (Hun _ _ _ Hx' Hq).
Qed.

Section SLoadEntry.
Context `{LegacyGas}.

Lemma enable2929_shape jt : enable2929 jt = runActivator writes2929 None jt.
Proof.
  unfold enable2929, runActivator, writes2929, set_constantGas, set_dynamicGas.
  cbn [runWrites]. unfold mbind, mret, St_bind, St_ret.
  step_writes.
Qed.

(** After [enable2929], on a table without shared operations, SLOAD has a
    zero constant gas and [gasSLoadEIP2929] as dynamic gas. *)
Lemma enable2929_sload jt jt' :
  unshared jt -> enable2929 jt = Done tt jt' ->
  exists o, descriptor jt' SLOAD = Some o /\ constantGas o = 0 /\
            dynamicGas o = Some gasSLoadEIP2929.
Proof.
  intros Hun Hen. rewrite enable2929_shape in Hen.
  unfold runActivator, mbind, St_bind in Hen.
  destruct (runWrites writes2929 jt) as [[] jtW|msg] eqn:Ew; [|discriminate].
  injection Hen as <-.
  pose proof (runWrites_resolvable _ _ _ Ew) as Hres.
  destruct (proj1 (Forall_forall _ _) Hres (SLOAD, ConstantGas 0))
    as (p & Hp & [o Ho]).
  { unfold writes2929. right. left. }
  cbn in Hp.
  destruct (runWrites_heap _ _ _ Ew) as [HE HH].
  unfold descriptor. rewrite HE, Hp. cbn [mbind option_bind]. rewrite HH, Ho.
  cbn [fmap option_fmap option_map].
  rewrite (hits_unshared jt p SLOAD _ Hun Hp).
  assert (Hf : filter (fun x : Z * fieldWrite => x.1 = SLOAD) writes2929
               = [(SLOAD, ConstantGas 0); (SLOAD, DynamicGas gasSLoadEIP2929)]).
  { unfold writes2929.
    repeat first [ rewrite filter_cons_True by reflexivity
                 | rewrite filter_cons_False by (cbn; discriminate) ].
    reflexivity. }
  rewrite Hf. eexists. split; [reflexivity|]. split; reflexivity.
Qed.
End SLoadEntry.

(** C6. The first SLOAD gas computation on a cold (address, slot) pair
    charges the cold cost 2100 and leaves the pair in the access list; no
    gas function of operations_acl.go takes a pair (or an address) out of the
    list when it returns; and in any later frame of the same contract whose
    access list still has what the first computation left, SLOAD on that
    slot charges the warm baseline 100 and changes nothing. The access-list
    activator leaves SLOAD with a zero constant gas. *)
Theorem sload_cold_then_warm (memorySize : uint64) (fr : Frame) (loc : uint256)
    (rest : list uint256) :
  Stack fr = loc :: rest ->
  let a := self (contract fr) in
  let slot := uint256.Bytes32 loc in
  let fr1 := setDB (statedb.AddSlotToAccessList a slot (stateDB (evm fr))) fr in
  (a, slot) ∉ accessedSlots (stateDB (evm fr)) ->
  gasSLoadEIP2929 memorySize fr = Done (params.ColdSloadCostEIP2929, None) fr1
  /\ (a, slot) ∈ accessedSlots (stateDB (evm fr1))
  /\ (forall g ms fr2 r fr3,
        acl_gas_function g -> g ms fr2 = Done r fr3 -> warmth_kept fr2 fr3)
  /\ (forall ms fr2 loc2 rest2,
        warmth_kept fr1 fr2 -> self (contract fr2) = a ->
        Stack fr2 = loc2 :: rest2 -> uint256.Bytes32 loc2 = slot ->
        gasSLoadEIP2929 ms fr2 = Done (params.WarmStorageReadCostEIP2929, None) fr2)
  /\ (forall (legacy : LegacyGas) jt jt',
        unshared jt -> enable2929 jt = Done tt jt' ->
        exists o, descriptor jt' SLOAD = Some o /\ constantGas o = 0 /\
                  dynamicGas o = Some gasSLoadEIP2929).
Proof.
  intros Hst a slot fr1 Hcold.
  assert (Hin : (a, slot) ∈ accessedSlots (stateDB (evm fr1))).
  { subst fr1. destruct fr as [[db ? ? ?] ? ? ?]. cbn. set_solver. }
  split; [|split; [exact Hin|split; [|split]]].
  - subst fr1 a slot. destruct fr as [[db ? ? ?] [ad gas] st m]. cbn in *. subst st.
    unfold gasSLoadEIP2929. run. cbn.
    rewrite bool_decide_eq_false_2 by exact Hcold. reflexivity.
  - intros g ms fr2 r fr3 Hg Hrun.
    exact (acl_gas_functions_keep_warm g ms Hg fr2 r fr3 Hrun).
  - intros ms fr2 loc2 rest2 [Hslots _] Hself Hst2 Hloc.
    destruct fr2 as [[db2 ? ? ?] [ad2 gas2] st2 m2].
    cbn in Hself, Hst2, Hslots. subst st2 ad2.
    unfold gasSLoadEIP2929. run. cbn. rewrite Hloc.
    rewrite bool_decide_eq_true_2 by (apply Hslots, Hin). reflexivity.
  - intros legacy jt jt'. apply enable2929_sload.
Qed.

(** Slot 1 of contract 7, read twice. *)
Lemma sload_cold_then_warm_witness :
  gasSLoadEIP2929 0 (frameOf (slotDB 7 1 5 5 false 0) 7 10000 [1] [])
  = Done (2100, None) (frameOf (slotDB 7 1 5 5 true 0) 7 10000 [1] [])
  /\ gasSLoadEIP2929 0 (frameOf (slotDB 7 1 5 5 true 0) 7 9000 [1; 4] [])
     = Done (100, None) (frameOf (slotDB 7 1 5 5 true 0) 7 9000 [1; 4] []).
Proof.
  destruct (sload_cold_then_warm 0 (frameOf (slotDB 7 1 5 5 false 0) 7 10000 [1] []) 1 []
              eq_refl) as (Hfirst & _ & _ & Hlater & _).
  { vm_compute. set_solver. }
  split.
  - rewrite Hfirst. vm_compute. reflexivity.
  - apply (Hlater 0 (frameOf (slotDB 7 1 5 5 true 0) 7 9000 [1; 4] []) 1 [4]).
    + split; vm_compute; set_solver.
    + reflexivity.
    + reflexivity.
    + reflexivity.
Defined.

(** * Further properties of operations_acl.go *)

(** ** Account checks *)

(** X1. BALANCE, EXTCODESIZE and EXTCODEHASH: the address is the low 20
    bytes of the top word. A cold address costs the surcharge 2500 and is
    marked warm; after that, in any frame that still has it in the access
    list, any word with the same low 20 bytes costs nothing and leaves the
    frame as it is. *)
Theorem account_check_cold_then_warm (memorySize : uint64) (fr : Frame) (w : uint256)
    (rest : list uint256) :
  Stack fr = w :: rest ->
  uint256.Bytes20 w ∉ accessedAddresses (stateDB (evm fr)) ->
  let fr1 := setDB (statedb.AddAddressToAccessList (uint256.Bytes20 w)
                      (stateDB (evm fr))) fr in
  gasEip2929AccountCheck memorySize fr = Done (2500, None) fr1
  /\ (forall ms fr2 w2 rest2,
        warmth_kept fr1 fr2 -> Stack fr2 = w2 :: rest2 ->
        w2 mod 2 ^ 160 = w mod 2 ^ 160 ->
        gasEip2929AccountCheck ms fr2 = Done (0, None) fr2).
Proof.
  intros Hst Hcold fr1.
  assert (Hin : uint256.Bytes20 w ∈ accessedAddresses (stateDB (evm fr1))).
  { subst fr1. destruct fr as [[db ? ? ?] ? ? ?]. cbn. set_solver. }
  split.
  - subst fr1. destruct fr as [[db ? ? ?] c st m]. cbn in *. subst st.
    unfold gasEip2929AccountCheck. run. cbn.
    unfold statedb.AddressInAccessList.
    rewrite bool_decide_eq_false_2 by exact Hcold. reflexivity.
  - intros ms fr2 w2 rest2 [_ Haddrs] Hst2 Hlow.
    destruct fr2 as [[db2 ? ? ?] c2 st2 m2]. cbn in Hst2, Haddrs. subst st2.
    unfold gasEip2929AccountCheck. run. cbn.
    unfold statedb.AddressInAccessList, uint256.Bytes20. rewrite Hlow.
    rewrite bool_decide_eq_true_2 by (apply Haddrs, Hin). reflexivity.
Qed.

(** Address 9 with and without bits above the 160th. *)
Lemma account_check_cold_then_warm_witness :
  gasEip2929AccountCheck 0 (frameOf emptyDB 7 10000 [9] [])
  = Done (2500, None) (frameOf (statedb.AddAddressToAccessList 9 emptyDB) 7 10000 [9] [])
  /\ gasEip2929AccountCheck 0
       (frameOf (statedb.AddAddressToAccessList 9 emptyDB) 7 7000 [2 ^ 160 + 9; 3] [])
     = Done (0, None)
         (frameOf (statedb.AddAddressToAccessList 9 emptyDB) 7 7000 [2 ^ 160 + 9; 3] []).
Proof.
  destruct (account_check_cold_then_warm 0 (frameOf emptyDB 7 10000 [9] []) 9 [] eq_refl)
    as [Hfirst Hlater].
  { cbn. apply not_elem_of_empty. }
  split.
  - rewrite Hfirst. reflexivity.
  - apply (Hlater 0 _ (2 ^ 160 + 9) [3]).
    + split; vm_compute; set_solver.
    + reflexivity.
    + vm_compute. reflexivity.
Defined.

(** ** EXTCODECOPY *)

(** X2. [gasExtCodeCopyEIP2929] over any prior calculator that returns a
    64-bit charge: an error of the prior calculator is passed on with a zero
    charge and the address is not looked at; otherwise a warm address costs
    what the prior calculator charged, and a cold one is marked warm and
    costs 2500 more, or gives [ErrGasUintOverflow] with a zero charge when
    the sum does not fit 64 bits, the address being warm all the same. *)
Theorem extcodecopy_gas (gasExtCodeCopy : gasFunc) (memorySize : uint64)
    (fr fr1 : Frame) (gas : uint64) (err : option error) (w : uint256)
    (rest : list uint256) :
  gasExtCodeCopy memorySize fr = Done (gas, err) fr1 ->
  0 <= gas < 2 ^ 64 ->
  Stack fr1 = w :: rest ->
  gasExtCodeCopyEIP2929 gasExtCodeCopy memorySize fr
  = match err with
    | Some e => Done (0, Some e) fr1
    | None =>
        if statedb.AddressInAccessList (uint256.Bytes20 w) (stateDB (evm fr1))
        then Done (gas, None) fr1
        else
          let fr2 := setDB (statedb.AddAddressToAccessList (uint256.Bytes20 w)
                              (stateDB (evm fr1))) fr1 in
          if 2 ^ 64 <=? gas + 2500
          then Done (0, Some ErrGasUintOverflow) fr2
          else Done (gas + 2500, None) fr2
    end.
Proof.
  intros Hold Hgas Hst.
  unfold gasExtCodeCopyEIP2929. unfold mbind at 1. unfold St_bind. rewrite Hold.
  cbn [snd fst]. destruct err as [e|]; [reflexivity|].
  destruct fr1 as [[db ? ? ?] c st m]. cbn in Hst. subst st.
  run. cbn [lookup list_lookup Stack evm stateDB].
  destruct (statedb.AddressInAccessList (uint256.Bytes20 w) db); cbn [negb];
    [reflexivity|].
  change (params.ColdAccountAccessCostEIP2929 - params.WarmStorageReadCostEIP2929)
    with 2500.
  rewrite (SafeAdd_spec gas 2500) by lia. cbn [fst snd].
  destruct (2 ^ 64 <=? gas + 2500) eqn:E; [reflexivity|].
  rewrite wrap64_small by (assumption || lia). reflexivity.
Qed.

(** A cold address over a prior charge of 7, and over one of [2^64 - 1]. *)
Lemma extcodecopy_gas_witness :
  gasExtCodeCopyEIP2929 (flatGas 7) 0 (frameOf emptyDB 7 10000 [9] [])
  = Done (2507, None) (frameOf (statedb.AddAddressToAccessList 9 emptyDB) 7 10000 [9] [])
  /\ gasExtCodeCopyEIP2929 (flatGas (2 ^ 64 - 1)) 0 (frameOf emptyDB 7 10000 [9] [])
     = Done (0, Some ErrGasUintOverflow)
         (frameOf (statedb.AddAddressToAccessList 9 emptyDB) 7 10000 [9] []).
Proof.
  split.
  - rewrite (extcodecopy_gas (flatGas 7) 0 (frameOf emptyDB 7 10000 [9] [])
               (frameOf emptyDB 7 10000 [9] []) 7 None 9 []);
      [reflexivity|reflexivity|lia|reflexivity].
  - rewrite (extcodecopy_gas (flatGas (2 ^ 64 - 1)) 0 (frameOf emptyDB 7 10000 [9] [])
               (frameOf emptyDB 7 10000 [9] []) (2 ^ 64 - 1) None 9 []);
      [reflexivity|reflexivity|lia|reflexivity].
Defined.

(** ** SELFDESTRUCT *)

(** What the SELFDESTRUCT gas function returns with the beneficiary on top
    of the stack. *)
Lemma selfdestruct_gas (refundsEnabled : bool) (memorySize : uint64) (fr : Frame)
    (w : uint256) (rest : list uint256) :
  Stack fr = w :: rest ->
  let db := stateDB (evm fr) in
  let a := self (contract fr) in
  let beneficiary := uint256.Bytes20 w in
  let cold := negb (statedb.AddressInAccessList beneficiary db) in
  let db1 := if cold then statedb.AddAddressToAccessList beneficiary db else db in
  makeSelfdestructGasFn refundsEnabled memorySize fr
  = Done ((if cold then 2600 else 0)
          + (if statedb.Empty beneficiary db && negb (statedb.GetBalance a db =? 0)
             then 25000 else 0), None)
         (setDB (if refundsEnabled && negb (statedb.HasSuicided a db)
                 then statedb.AddRefund 24000 db1 else db1) fr).
Proof.
  intros Hst db a beneficiary cold db1. subst db a beneficiary cold db1.
  destruct fr as [[db ? ? ?] [a g] st m]. cbn in Hst. subst st.
  unfold makeSelfdestructGasFn. run. cbn.
  destruct (statedb.AddressInAccessList (uint256.Bytes20 w) db); cbn;
    unfold statedb.Empty, statedb.GetBalance, statedb.HasSuicided; cbn;
    destruct (bool_decide (uint256.Bytes20 w ∈ emptyAccounts db)); cbn;
    destruct (default 0 (balance db !! a) =? 0); cbn;
    destruct refundsEnabled; cbn;
    destruct (bool_decide (a ∈ suicided db)); reflexivity.
Qed.

Lemma selfdestruct_empty_stack (refundsEnabled : bool) (memorySize : uint64) (fr : Frame) :
  Stack fr = [] ->
  makeSelfdestructGasFn refundsEnabled memorySize fr = Panic "index out of range".
Proof.
  intros Hst. destruct fr as [e c st m]. cbn in Hst. subst st. reflexivity.
Qed.

(** X3. The two SELFDESTRUCT gas functions differ in the refund only: on
    every frame they return the same charge (0, 2600, 25000 or 27600, never
    an error) and the same access list, or panic alike on an empty stack.
    The one of EIP-3529 never changes the refund counter; the one of
    EIP-2929 adds 24000 to it exactly when the contract has not
    self-destructed yet. *)
Theorem selfdestruct_refund_schedule (memorySize : uint64) (fr : Frame) :
  same_but_refund (gasSelfdestructEIP2929 memorySize fr)
                  (gasSelfdestructEIP3529 memorySize fr)
  /\ (forall r fr', gasSelfdestructEIP3529 memorySize fr = Done r fr' ->
        refund (stateDB (evm fr')) = refund (stateDB (evm fr)) /\ r.2 = None /\
        (r.1 = 0 \/ r.1 = 2600 \/ r.1 = 25000 \/ r.1 = 27600))
  /\ (forall r fr', gasSelfdestructEIP2929 memorySize fr = Done r fr' ->
        refund (stateDB (evm fr'))
        = if statedb.HasSuicided (self (contract fr)) (stateDB (evm fr))
          then refund (stateDB (evm fr))
          else wrap_int64 (refund (stateDB (evm fr)) + 24000)).
Proof.
  unfold gasSelfdestructEIP2929, gasSelfdestructEIP3529.
  destruct (Stack fr) as [|w rest] eqn:Hst.
  - rewrite !selfdestruct_empty_stack by exact Hst.
    split; [reflexivity|]. split; intros r fr'; discriminate.
  - rewrite (selfdestruct_gas true memorySize fr w rest Hst),
      (selfdestruct_gas false memorySize fr w rest Hst). cbv zeta.
    destruct fr as [[db ? ? ?] [a g] st m]. cbn [evm stateDB contract self].
    split; [|split].
    + split; [reflexivity|].
      destruct (negb (statedb.AddressInAccessList (uint256.Bytes20 w) db));
        destruct (statedb.HasSuicided a db); reflexivity.
    + cbn [andb]. intros r fr' [= <- <-]. cbn.
      split; [destruct (negb _); reflexivity|]. split; [reflexivity|].
      destruct (negb _); destruct (_ && _); cbn; auto.
    + cbn [andb]. intros r fr' [= <- <-].
      unfold statedb.HasSuicided, statedb.AddressInAccessList.
      destruct (bool_decide (a ∈ suicided db));
        destruct (bool_decide (uint256.Bytes20 w ∈ accessedAddresses db)); reflexivity.
Qed.

(** A cold beneficiary 9 for contract 7: 2600 either way, and 24000 of
    refund under EIP-2929 only. *)
Lemma selfdestruct_refund_schedule_witness :
  refund (stateDB (evm (frameOf (statedb.AddAddressToAccessList 9 emptyDB) 7 10000 [9] [])))
  = 0
  /\ forall r fr', gasSelfdestructEIP2929 0 (frameOf emptyDB 7 10000 [9] []) = Done r fr' ->
     refund (stateDB (evm fr')) = 24000.
Proof.
  destruct (selfdestruct_refund_schedule 0 (frameOf emptyDB 7 10000 [9] []))
    as (_ & H3529 & H2929).
  split.
  - exact (proj1 (H3529 (2600, None)
                    (frameOf (statedb.AddAddressToAccessList 9 emptyDB) 7 10000 [9] [])
                    eq_refl)).
  - intros r fr' Hrun. rewrite (H2929 r fr' Hrun). reflexivity.
Defined.

(** ** The initcode size limit *)

(** X4. [gasCreateEIP3860] (and [gasCreate2EIP3860]) checks the size limit
    before anything else: an initcode of more than 49152 bytes gives
    [ErrMaxInitCodeSizeExceeded] with the frame untouched, whatever the
    offset. Within the limit the overhead is two gas per 32-byte chunk, at
    most 3072, its multiplication cannot overflow, and the charge is the
    memory growth cost of [offset + size] plus the overhead, or the overflow
    error when [offset + size] or the sum does not fit 64 bits. *)
Theorem create_initcode_gas (memorySize : uint64) (fr : Frame) (w0 w1 : uint256)
    (rest : list uint256) :
  Stack fr = w0 :: w1 :: rest ->
  let size := uint256.Uint64 w0 in
  let offset := uint256.Uint64 w1 in
  let overhead := 2 * ((size + 31) / 32) in
  (49152 < size ->
   gasCreateEIP3860 memorySize fr = Done (0, Some ErrMaxInitCodeSizeExceeded) fr /\
   gasCreate2EIP3860 memorySize fr = Done (0, Some ErrMaxInitCodeSizeExceeded) fr)
  /\ (size <= 49152 ->
      overhead <= 3072 /\
      gasCreateEIP3860 memorySize fr
      = if 2 ^ 64 <=? offset + size
        then Done (0, Some ErrGasUintOverflow) fr
        else
          match memoryGasCost (offset + size) fr with
          | Done (memGas, None) fr' =>
              if 2 ^ 64 <=? memGas + overhead
              then Done (0, Some ErrGasUintOverflow) fr'
              else Done (memGas + overhead, None) fr'
          | Done (_, Some err) fr' => Done (0, Some err) fr'
          | Panic msg => Panic msg
          end).
Proof.
  intros Hst size offset overhead.
  pose proof (Uint64_range w0) as Hs. pose proof (Uint64_range w1) as Ho.
  fold size in Hs. fold offset in Ho.
  destruct fr as [e c st m]. cbn in Hst. subst st.
  split.
  - intros Hbig. unfold gasCreate2EIP3860, gasCreateEIP3860. run.
    cbn [lookup list_lookup Stack]. fold size.
    destruct (Z.gtb_spec size 49152) as [_|]; [|lia]. split; reflexivity.
  - intros Hsmall.
    assert (Hchunks : 0 <= (size + 31) / 32 <= 1536).
    { split; [apply Z.div_pos; lia|].
      assert ((size + 31) / 32 < 1537) by (apply Z.div_lt_upper_bound; lia). lia. }
    split; [subst overhead; lia|].
    unfold gasCreateEIP3860. run. cbn [lookup list_lookup Stack]. fold size offset.
    destruct (Z.gtb_spec size 49152) as [|_]; [lia|].
    rewrite (SafeAdd_spec offset size) by lia.
    destruct (2 ^ 64 <=? offset + size) eqn:Eo; [reflexivity|].
    rewrite wrap64_small by (assumption || lia).
    destruct (memoryGasCost_result (offset + size)
                (mkFrame e c (w0 :: w1 :: rest) m))
      as (memGas & err & fr' & -> & Hg & Herr).
    cbn [fst snd]. destruct err as [err|]; [reflexivity|].
    unfold wrap64 at 1. rewrite (Z.mod_small (size + 31)) by lia.
    rewrite (SafeMul_spec ((size + 31) / 32) 2) by lia.
    destruct (Z.leb_spec (2 ^ 64) ((size + 31) / 32 * 2)) as [|_]; [lia|].
    rewrite (wrap64_small ((size + 31) / 32 * 2)) by (lia || apply Z.leb_gt; lia).
    rewrite (SafeAdd_spec memGas ((size + 31) / 32 * 2)) by lia.
    replace ((size + 31) / 32 * 2) with overhead by (subst overhead; lia).
    destruct (2 ^ 64 <=? memGas + overhead) eqn:Et; [reflexivity|].
    rewrite wrap64_small by (assumption || lia). reflexivity.
Qed.

(** An initcode of 49153 bytes at an offset that would overflow, and one of
    64 bytes in an empty memory (two words of growth, two chunks). *)
Lemma create_initcode_gas_witness :
  gasCreateEIP3860 0 (frameOf emptyDB 7 10000 [49153; 2 ^ 64 - 1] [])
  = Done (0, Some ErrMaxInitCodeSizeExceeded)
         (frameOf emptyDB 7 10000 [49153; 2 ^ 64 - 1] [])
  /\ gasCreateEIP3860 0 (frameOf emptyDB 7 10000 [64; 0] [])
     = Done (10, None) (setMemory (mkMemory [] 6) (frameOf emptyDB 7 10000 [64; 0] [])).
Proof.
  split.
  - destruct (create_initcode_gas 0 (frameOf emptyDB 7 10000 [49153; 2 ^ 64 - 1] [])
                49153 (2 ^ 64 - 1) [] eq_refl) as [Hbig _].
    apply Hbig. vm_compute. reflexivity.
  - destruct (create_initcode_gas 0 (frameOf emptyDB 7 10000 [64; 0] [])
                64 0 [] eq_refl) as [_ Hsmall].
    destruct Hsmall as [_ Heq]; [vm_compute; discriminate|].
    rewrite Heq. vm_compute. reflexivity.
Defined.

(** ** SSTORE under the two refund schedules *)

(** X5. The clearing refund passed to [makeGasSStoreFunc] changes refunds
    and nothing else: for any two refund amounts the function returns, on
    every frame, the same charge, the same error and the same frame up to
    the refund counter, or the same panic. When it charges, the charge is one
    of 100, 2900 and 20000, or one of these plus the cold cost 2100. *)
Theorem sstore_refund_schedule (memorySize : uint64) (fr : Frame)
    (clearingRefund1 clearingRefund2 : uint64) :
  same_but_refund (makeGasSStoreFunc clearingRefund1 memorySize fr)
                  (makeGasSStoreFunc clearingRefund2 memorySize fr)
  /\ (forall gas fr', makeGasSStoreFunc clearingRefund1 memorySize fr
                      = Done (gas, None) fr' ->
      gas = 100 \/ gas = 2900 \/ gas = 20000 \/
      gas = 2200 \/ gas = 5000 \/ gas = 22100).
Proof.
  destruct fr as [[db ? ? ?] [a g] st m].
  unfold makeGasSStoreFunc. run. cbn [contract Gas self].
  destruct (g <=? params.SstoreSentryGasEIP2200).
  { split; [split; reflexivity|]. intros gas fr'. discriminate. }
  destruct st as [|x [|y rest]];
    [split; [reflexivity|]; intros gas fr'; discriminate ..|].
  cbn [lookup list_lookup Stack evm stateDB].
  unfold statedb.SlotInAccessList. cbn [fst snd].
  destruct (bool_decide ((a, uint256.Bytes32 x) ∈ accessedSlots db)) eqn:Es;
    cbn [negb].
  - unfold statedb.GetState, statedb.GetCommittedState. cbn.
    split_eqb; (split; [split; reflexivity|]); intros gas fr' [= <- _];
      vm_compute; auto 7.
  - destruct (bool_decide (a ∈ accessedAddresses db)); cbn [negb].
    + unfold statedb.GetState, statedb.GetCommittedState. cbn.
      split_eqb; (split; [split; reflexivity|]); intros gas fr' [= <- _];
        vm_compute; auto 7.
    + split; [reflexivity|]. intros gas fr'. discriminate.
Qed.

Lemma sstore_refund_schedule_witness :
  same_but_refund
    (gasSStoreEIP3529 0 (frameOf (slotDB 7 1 5 5 true 0) 7 10000 [1; 0] []))
    (gasSStoreEIP2929 0 (frameOf (slotDB 7 1 5 5 true 0) 7 10000 [1; 0] []))
  /\ (2900 = 100 \/ 2900 = 2900 \/ 2900 = 20000 \/ 2900 = 2200 \/ 2900 = 5000
      \/ 2900 = 22100).
Proof.
  destruct (sstore_refund_schedule 0 (frameOf (slotDB 7 1 5 5 true 0) 7 10000 [1; 0] [])
              params.SstoreClearsScheduleRefundEIP3529
              params.SstoreClearsScheduleRefundEIP2200) as [Hsame Hcharge].
  split; [exact Hsame|].
  exact (Hcharge 2900 (frameOf (slotDB 7 1 5 5 true 4800) 7 10000 [1; 0] []) eq_refl).
Defined.

Example sstore_clear_slot_3529 :
  gasSStoreEIP3529 0 (frameOf (slotDB 7 1 5 5 true 0) 7 10000 [1; 0] [])
  = Done (2900, None) (frameOf (slotDB 7 1 5 5 true 4800) 7 10000 [1; 0] []).
Proof. reflexivity. Qed.

(** ** MCOPY: the gas function and the execute function together *)

(** X6. [gasMCopy] names the word under the length the source and the next
    one the destination, while [opMCopy] pops them as destination and
    source; the charge does not depend on it: with the two offset words
    exchanged the gas function returns the same charge, the same error and
    the same memory. *)
Theorem gasMCopy_offsets_exchange (memorySize : uint64) (fr : Frame) (w0 w1 w2 : uint256)
    (rest : list uint256) :
  withStack rest (gasMCopy memorySize (setStack (w0 :: w1 :: w2 :: rest) fr))
  = withStack rest (gasMCopy memorySize (setStack (w0 :: w2 :: w1 :: rest) fr)).
Proof.
  rewrite (gasMCopy_eq memorySize (setStack (w0 :: w1 :: w2 :: rest) fr) w0 w1 w2 rest)
    by reflexivity.
  rewrite (gasMCopy_eq memorySize (setStack (w0 :: w2 :: w1 :: rest) fr) w0 w2 w1 rest)
    by reflexivity.
  cbv zeta. rewrite !memoryGasCost_setStack.
  rewrite (orb_comm (2 ^ 64 <=? uint256.Uint64 w1 + uint256.Uint64 w0)).
  rewrite (Z.max_comm (uint256.Uint64 w2 + uint256.Uint64 w0)).
  destruct (_ || _); [destruct fr; reflexivity|].
  destruct (memoryGasCost _ fr) as [[memGas [err|]] fr'|msg]; cbn;
    [destruct fr'; reflexivity| |reflexivity].
  destruct (_ || _); destruct fr'; reflexivity.
Qed.

Lemma memoryGasCost_frame n fr r fr' :
  memoryGasCost n fr = Done r fr' ->
  Stack fr' = Stack fr /\ evm fr' = evm fr /\ contract fr' = contract fr.
Proof.
  unfold memoryGasCost.
  destruct (n =? 0); [intros [= _ <-]; auto|].
  destruct (n >? 137438953440); [intros [= _ <-]; auto|].
  run. cbn. destruct (_ >? _); intros [= _ <-]; destruct fr; auto.
Qed.

(** The gas function of MCOPY changes nothing but what the memory records
    as paid. *)
Lemma gasMCopy_frame (memorySize : uint64) (fr : Frame) r fr' :
  gasMCopy memorySize fr = Done r fr' ->
  Stack fr' = Stack fr /\ evm fr' = evm fr /\ contract fr' = contract fr.
Proof.
  destruct (Stack fr) as [|w0 [|w1 [|w2 rest]]] eqn:Hst.
  1-3: destruct fr as [e c st m]; cbn in Hst; subst st;
       unfold gasMCopy; run; cbn; discriminate.
  rewrite (gasMCopy_eq memorySize fr w0 w1 w2 rest Hst). cbv zeta.
  destruct (_ || _); [intros [= _ <-]; rewrite Hst; auto|].
  destruct (memoryGasCost _ fr) as [[memGas [err|]] fr1|msg] eqn:Em; [| |discriminate].
  - intros [= _ <-]. rewrite <- Hst. exact (memoryGasCost_frame _ _ _ _ Em).
  - destruct (_ || _); intros [= _ <-]; rewrite <- Hst;
      exact (memoryGasCost_frame _ _ _ _ Em).
Qed.

(** X7. A stack that [gasMCopy] has priced without error is one that
    [opMCopy] executes without error and without panic, for a zero length as
    for any other: the three words are popped and nothing is returned. *)
Theorem opMCopy_succeeds_after_gas (memorySize : uint64) (fr fr1 : Frame)
    (w0 w1 w2 : uint256) (rest : list uint256) (gas : uint64) :
  Stack fr = w0 :: w1 :: w2 :: rest ->
  gasMCopy memorySize fr = Done (gas, None) fr1 ->
  exists fr2, opMCopy fr1 = Done ([], None) fr2 /\ Stack fr2 = rest /\
              evm fr2 = evm fr /\ contract fr2 = contract fr.
Proof.
  intros Hst Hgas.
  destruct (gasMCopy_frame _ _ _ _ Hgas) as (Hst1 & Hevm & Hcon). rewrite Hst in Hst1.
  destruct (Z.eq_dec (uint256.Uint64 w0) 0) as [Hz|Hnz].
  - eexists. split; [apply (opMCopy_zero_length fr1 w0 w1 w2 rest Hst1 Hz)|].
    destruct fr1. cbn in *. tauto.
  - eexists. split; [apply (opMCopy_after_gas memorySize fr fr1 fr1 w0 w1 w2 rest gas);
                     assumption|].
    destruct fr1. cbn in *. tauto.
Qed.

Lemma opMCopy_succeeds_after_gas_witness :
  exists fr2,
    opMCopy (setMemory (mkMemory [] 9) (frameOf emptyDB 7 10000 [32; 0; 64] []))
    = Done ([], None) fr2 /\ Stack fr2 = [] /\
    evm fr2 = evm (frameOf emptyDB 7 10000 [32; 0; 64] []) /\
    contract fr2 = contract (frameOf emptyDB 7 10000 [32; 0; 64] []).
Proof.
  apply (opMCopy_succeeds_after_gas 0 (frameOf emptyDB 7 10000 [32; 0; 64] [])
           (setMemory (mkMemory [] 9) (frameOf emptyDB 7 10000 [32; 0; 64] []))
           32 0 64 [] 105).
  - reflexivity.
  - vm_compute. reflexivity.
Defined.

(** X8. When [src + length] or [dst + length] does not fit 64 bits,
    [opMCopy] returns [ErrMemoryOverflow] after popping the three words; the
    memory is neither grown nor written. *)
Theorem opMCopy_overflow (fr : Frame) (w0 w1 w2 : uint256) (rest : list uint256) :
  Stack fr = w0 :: w1 :: w2 :: rest ->
  uint256.Uint64 w0 <> 0 ->
  2 ^ 64 <= uint256.Uint64 w2 + uint256.Uint64 w0 \/
  2 ^ 64 <= uint256.Uint64 w1 + uint256.Uint64 w0 ->
  opMCopy fr = Done ([], Some ErrMemoryOverflow) (setStack rest fr).
Proof.
  intros Hst Hlen Hover.
  pose proof (Uint64_range w0). pose proof (Uint64_range w1). pose proof (Uint64_range w2).
  destruct fr as [e c st m]. cbn in Hst. subst st.
  unfold opMCopy. run. cbn [Stack setStack evm contract memory].
  destruct (Z.eqb_spec (uint256.Uint64 w0) 0) as [|_]; [contradiction|].
  rewrite (SafeAdd_spec (uint256.Uint64 w2)), (SafeAdd_spec (uint256.Uint64 w1)) by lia.
  destruct (Z.leb_spec (2 ^ 64) (uint256.Uint64 w2 + uint256.Uint64 w0));
    destruct (Z.leb_spec (2 ^ 64) (uint256.Uint64 w1 + uint256.Uint64 w0));
    try reflexivity; lia.
Qed.

Lemma opMCopy_overflow_witness :
  opMCopy (frameOf emptyDB 7 10000 [2; 2 ^ 64 - 1; 0] [1; 2; 3])
  = Done ([], Some ErrMemoryOverflow) (frameOf emptyDB 7 10000 [] [1; 2; 3]).
Proof.
  apply (opMCopy_overflow (frameOf emptyDB 7 10000 [2; 2 ^ 64 - 1; 0] [1; 2; 3])
           2 (2 ^ 64 - 1) 0 [] eq_refl).
  - vm_compute. discriminate.
  - right. vm_compute. discriminate.
Defined.

(** ** What a gas function leaves warm *)

(** X9. Each access-list gas function leaves its target in the access list
    whenever it returns, with or without error: the account check, the
    call variants (also when they return out-of-gas, or pass on an error of
    a prior calculator that leaves the access list alone) and SELFDESTRUCT
    their address; SLOAD, and SSTORE past the sentry check, their slot. *)
Theorem targets_end_warm (memorySize : uint64) (fr fr1 : Frame)
    (r : uint64 * option error) :
  (forall w rest, Stack fr = w :: rest ->
     gasEip2929AccountCheck memorySize fr = Done r fr1 ->
     uint256.Bytes20 w ∈ accessedAddresses (stateDB (evm fr1)))
  /\ (forall old w0 w rest, Stack fr = w0 :: w :: rest ->
        (forall ms, keeps_warm (old ms)) ->
        makeCallVariantGasCallEIP2929 old memorySize fr = Done r fr1 ->
        uint256.Bytes20 w ∈ accessedAddresses (stateDB (evm fr1)))
  /\ (forall refundsEnabled w rest, Stack fr = w :: rest ->
        makeSelfdestructGasFn refundsEnabled memorySize fr = Done r fr1 ->
        uint256.Bytes20 w ∈ accessedAddresses (stateDB (evm fr1)))
  /\ (forall w rest, Stack fr = w :: rest ->
        gasSLoadEIP2929 memorySize fr = Done r fr1 ->
        (self (contract fr), uint256.Bytes32 w) ∈ accessedSlots (stateDB (evm fr1)))
  /\ (forall clearingRefund w rest, Stack fr = w :: rest ->
        params.SstoreSentryGasEIP2200 < Gas (contract fr) ->
        makeGasSStoreFunc clearingRefund memorySize fr = Done r fr1 ->
        (self (contract fr), uint256.Bytes32 w) ∈ accessedSlots (stateDB (evm fr1))).
Proof.
  destruct fr as [[db cgt cid bf] [a g] st m].
  split; [|split; [|split; [|split]]].
  - intros w rest Hst. cbn in Hst. subst st.
    unfold gasEip2929AccountCheck. run. cbn. unfold statedb.AddressInAccessList.
    destruct (bool_decide _) eqn:E; cbn; intros [= _ <-]; cbn.
    + apply bool_decide_eq_true in E. exact E.
    + set_solver.
  - intros old w0 w rest Hst Hold. cbn in Hst. subst st.
    unfold makeCallVariantGasCallEIP2929. run. cbn.
    unfold statedb.AddressInAccessList.
    destruct (bool_decide _) eqn:E; cbn.
    + apply bool_decide_eq_true in E.
      destruct (old memorySize _) as [r' fr'|msg] eqn:Eo; [|discriminate].
      intros [= _ <-]. apply (Hold _ _ _ _ Eo). exact E.
    + unfold UseGas. cbn. destruct (g <? _); cbn.
      * intros [= _ <-]. cbn. set_solver.
      * destruct (old memorySize _) as [r' fr'|msg] eqn:Eo; [|discriminate].
        assert (Hin : uint256.Bytes20 w ∈ accessedAddresses (stateDB (evm fr'))).
        { apply (Hold _ _ _ _ Eo). cbn. set_solver. }
        destruct (bool_decide (is_Some r'.2)); intros [= _ <-]; [exact Hin|].
        destruct fr' as [[? ? ? ?] ? ? ?]. exact Hin.
  - intros refundsEnabled w rest Hst.
    rewrite (selfdestruct_gas refundsEnabled memorySize _ w rest Hst). cbv zeta.
    intros [= _ <-]. cbn. unfold statedb.AddressInAccessList.
    destruct (bool_decide _) eqn:E; cbn; destruct (_ && _); cbn;
      try (apply bool_decide_eq_true in E; exact E); set_solver.
  - intros w rest Hst. cbn in Hst. subst st.
    unfold gasSLoadEIP2929. run. cbn.
    destruct (bool_decide _) eqn:E; cbn; intros [= _ <-]; cbn.
    + apply bool_decide_eq_true in E. exact E.
    + set_solver.
  - intros clearingRefund w rest Hst Hgas. cbn in Hst, Hgas. subst st.
    unfold makeGasSStoreFunc. run. cbn.
    destruct (g <=? params.SstoreSentryGasEIP2200) eqn:Eg;
      [apply Z.leb_le in Eg; lia|].
    destruct rest as [|y rest]; cbn; [discriminate|].
    unfold statedb.SlotInAccessList. cbn.
    destruct (bool_decide ((a, uint256.Bytes32 w) ∈ accessedSlots db)) eqn:E; cbn.
    + apply bool_decide_eq_true in E.
      unfold statedb.GetState, statedb.GetCommittedState. cbn.
      split_eqb; intros [= _ <-]; exact E.
    + destruct (bool_decide (a ∈ accessedAddresses db)); cbn; [|discriminate].
      unfold statedb.GetState, statedb.GetCommittedState. cbn.
      split_eqb; intros [= _ <-]; cbn; set_solver.
Qed.

(** A call to the cold address 9 by a contract without gas: out-of-gas, and
    9 is warm. *)
Lemma targets_end_warm_witness :
  makeCallVariantGasCallEIP2929 (flatGas 7) 0 (frameOf emptyDB 7 0 [0; 9] [])
  = Done (0, Some ErrOutOfGas)
         (frameOf (statedb.AddAddressToAccessList 9 emptyDB) 7 0 [0; 9] [])
  /\ uint256.Bytes20 9
     ∈ accessedAddresses
         (stateDB (evm (frameOf (statedb.AddAddressToAccessList 9 emptyDB) 7 0 [0; 9] []))).
Proof.
  assert (Hrun : makeCallVariantGasCallEIP2929 (flatGas 7) 0 (frameOf emptyDB 7 0 [0; 9] [])
                 = Done (0, Some ErrOutOfGas)
                     (frameOf (statedb.AddAddressToAccessList 9 emptyDB) 7 0 [0; 9] []))
    by reflexivity.
  split; [exact Hrun|].
  destruct (targets_end_warm 0 (frameOf emptyDB 7 0 [0; 9] [])
              (frameOf (statedb.AddAddressToAccessList 9 emptyDB) 7 0 [0; 9] [])
              (0, Some ErrOutOfGas)) as (_ & Hcall & _).
  apply (Hcall (flatGas 7) 0 9 [] eq_refl); [|exact Hrun].
  intros ms. unfold flatGas. apply keeps_ret.
Defined.

(** * Further properties of eips.go *)

(** ** What an activator changes *)

Lemma assignAll_keeps ws o :
  execute (assignAll ws o) = execute o /\ minStack (assignAll ws o) = minStack o
  /\ maxStack (assignAll ws o) = maxStack o.
Proof. rewrite assignAll_overlay. destruct o; repeat split. Qed.

Lemma runWrites_descriptor ws jt jt' op :
  runWrites ws jt = Done tt jt' ->
  descriptor jt' op
  = q ← entries jt !! op; assignAll (hits (entries jt) q ws) <$> heap jt !! q.
Proof.
  intros Hrun. destruct (runWrites_heap _ _ _ Hrun) as [HE HH].
  unfold descriptor. rewrite HE.
  destruct (entries jt !! op) as [q|]; [|reflexivity]. cbn. apply HH.
Qed.

(** On a table without shared operations, a run of assignments gives each
    opcode the assignments made to it, in order. *)
Lemma runWrites_own ws jt jt' op o :
  unshared jt -> runWrites ws jt = Done tt jt' ->
  descriptor jt op = Some o ->
  descriptor jt' op = Some (assignAll (filter (fun x => x.1 = op) ws).*2 o).
Proof.
  intros Hun Hrun Hd. rewrite (runWrites_descriptor _ _ _ _ Hrun).
  unfold descriptor in Hd.
  destruct (entries jt !! op) as [q|] eqn:Eq; [|discriminate]. cbn in Hd |- *.
  rewrite Hd. cbn. rewrite (hits_unshared jt q op ws Hun Eq). reflexivity.
Qed.

Lemma runWrites_app ws1 ws2 jt :
  runWrites (ws1 ++ ws2) jt = (runWrites ws1;; runWrites ws2) jt.
Proof.
  revert jt. induction ws1 as [|[op w] ws1 IH]; intros jt; [reflexivity|].
  cbn. unfold mbind, St_bind. destruct (setField op w jt) as [u jt1|msg]; [|reflexivity].
  apply IH.
Qed.

Lemma resolvable_descriptor ws jt op w :
  resolvable ws jt -> (op, w) ∈ ws -> is_Some (descriptor jt op).
Proof.
  intros Hres Hin.
  destruct (proj1 (Forall_forall _ _) Hres _ Hin) as (p & Hp & Ho).
  unfold descriptor. cbn in Hp. rewrite Hp. exact Ho.
Qed.

Lemma tableOf_unshared ops : unshared (tableOf ops).
Proof.
  induction ops as [|op ops IH]; intros op1 op2 p H1 H2; [discriminate|].
  cbn in H1, H2.
  destruct (decide (op = op1)) as [<-|N1], (decide (op = op2)) as [<-|N2];
    [reflexivity| | |].
  - rewrite lookup_insert_eq in H1. rewrite lookup_insert_ne in H2 by exact N2.
    injection H1 as <-. apply tableOf_entries in H2. lia.
  - rewrite lookup_insert_eq in H2. rewrite lookup_insert_ne in H1 by exact N1.
    injection H2 as <-. apply tableOf_entries in H1. lia.
  - rewrite lookup_insert_ne in H1 by exact N1.
    rewrite lookup_insert_ne in H2 by exact N2. exact (IH _ _ _ H1 H2).
Qed.

Ltac filter_writes :=
  repeat first [ rewrite filter_cons_True by reflexivity
               | rewrite filter_cons_False by (cbn; discriminate) ];
  rewrite ?filter_nil.

Section ActivatorEffects.
Context `{LegacyGas}.

(** X10. A registered activator that returns leaves every pointer of the
    table valid and takes no opcode out of it; and apart from the five
    opcodes that activators install (SELFBALANCE, CHAINID, BASEFEE, PUSH0,
    MCOPY), every opcode keeps its execute function and its stack bounds:
    the assignments reach the two gas fields only, also in a table whose
    entries share operations. *)
Theorem activators_keep_actions name enablerFn jt jt' :
  activators !! name = Some enablerFn ->
  wf_table jt ->
  enablerFn jt = Done tt jt' ->
  wf_table jt'
  /\ forall op o, descriptor jt op = Some o ->
       exists o', descriptor jt' op = Some o'
                  /\ (op ∉ [SELFBALANCE; CHAINID; BASEFEE; PUSH0; MCOPY] ->
                      execute o' = execute o /\ minStack o' = minStack o
                      /\ maxStack o' = maxStack o).
Proof.
  intros Hlook Hwf Hrun.
  destruct (activators_shapes _ _ Hlook) as (ws & new & Hin & _ & Hshape).
  rewrite Hshape in Hrun. unfold runActivator, mbind, St_bind in Hrun.
  destruct (runWrites ws jt) as [[] jtW|msg] eqn:Ew; [|discriminate].
  pose proof (runWrites_wf _ _ _ Hwf Ew) as HwfW.
  assert (HW : forall op o, descriptor jt op = Some o ->
            exists o', descriptor jtW op = Some o' /\ execute o' = execute o
                       /\ minStack o' = minStack o /\ maxStack o' = maxStack o).
  { intros op o Hd. rewrite (runWrites_descriptor _ _ _ op Ew).
    unfold descriptor in Hd.
    destruct (entries jt !! op) as [q|]; [|discriminate]. cbn in Hd |- *.
    rewrite Hd. cbn. eexists. split; [reflexivity|]. apply assignAll_keeps. }
  destruct new as [[opN oN]|].
  - split; [exact (install_wf _ _ _ _ _ HwfW Hrun)|].
    intros op o Hd. rewrite (install_descriptor _ _ _ _ _ op HwfW Hrun).
    destruct (decide (opN = op)) as [<-|Hne].
    + eexists. split; [reflexivity|]. intros Hnot. exfalso. apply Hnot.
      unfold shapes in Hin.
      repeat (apply elem_of_cons in Hin as [Heq|Hin];
              [first [discriminate Heq
                     |injection Heq as _ _ -> _; rewrite !elem_of_cons; tauto]|]).
      apply elem_of_nil in Hin. contradiction.
    + destruct (HW op o Hd) as (o' & Ho' & Hk). eauto.
  - injection Hrun as <-. split; [exact HwfW|].
    intros op o Hd. destruct (HW op o Hd) as (o' & Ho' & Hk). eauto.
Qed.
End ActivatorEffects.

(** EIP-1884 on a table holding the eleven opcodes of the access-list
    activator: CALL is still there, untouched in its action. *)
Lemma activators_keep_actions_witness :
  exists jt', enable1884 baseTable = Done tt jt' /\ wf_table jt'
              /\ exists o', descriptor jt' CALL = Some o'
                            /\ execute o' = execute plainOp.
Proof.
  assert (Hrun : { jt' | enable1884 baseTable = Done tt jt' }) by (eexists; reflexivity).
  destruct Hrun as [jt' Hrun]. exists jt'. split; [exact Hrun|].
  destruct (@activators_keep_actions flatLegacy "ethereum_1884" enable1884 baseTable jt'
              eq_refl (tableOf_wf _) Hrun) as [Hwf Hkeep].
  split; [exact Hwf|].
  destruct (Hkeep CALL plainOp eq_refl) as (o' & Ho' & Hk).
  exists o'. split; [exact Ho'|]. apply Hk.
  rewrite !not_elem_of_cons. repeat split; try discriminate. apply not_elem_of_nil.
Defined.

(** ** The access-list activator and the refund reduction *)

Ltac in_list := repeat first [apply list_elem_of_here | apply list_elem_of_further].

Section ActivationOrder.
Context `{LegacyGas}.

Lemma enable3529_shape jt : enable3529 jt = runWrites writes3529 jt.
Proof.
  unfold enable3529, writes3529, set_dynamicGas. cbn [runWrites].
  unfold mbind, mret, St_bind, St_ret. step_writes.
Qed.

Lemma enable2929_writes jt : enable2929 jt = runWrites writes2929 jt.
Proof.
  rewrite enable2929_shape. unfold runActivator, mbind, mret, St_bind, St_ret.
  destruct (runWrites writes2929 jt) as [[] jtW|msg]; reflexivity.
Qed.

Lemma enable2929_then_3529 jt :
  (enable2929;; enable3529) jt = runWrites (writes2929 ++ writes3529) jt.
Proof.
  rewrite runWrites_app. unfold mbind, St_bind. rewrite enable2929_writes.
  destruct (runWrites writes2929 jt) as [[] jtW|msg]; [|reflexivity].
  apply enable3529_shape.
Qed.

Lemma enable3529_then_2929 jt :
  (enable3529;; enable2929) jt = runWrites (writes3529 ++ writes2929) jt.
Proof.
  rewrite runWrites_app. unfold mbind, St_bind. rewrite enable3529_shape.
  destruct (runWrites writes3529 jt) as [[] jtW|msg]; [|reflexivity].
  apply enable2929_writes.
Qed.

(** What a run of assignments that returns leaves at an opcode it assigns
    to, on a table without shared operations. *)
Lemma runWrites_at ws jt jt' op w :
  unshared jt -> runWrites ws jt = Done tt jt' -> (op, w) ∈ ws ->
  exists o, descriptor jt op = Some o
            /\ descriptor jt' op = Some (assignAll (filter (fun x => x.1 = op) ws).*2 o).
Proof.
  intros Hun Hrun Hin.
  destruct (resolvable_descriptor _ _ _ _ (runWrites_resolvable _ _ _ Hrun) Hin) as [o Ho].
  exists o. split; [exact Ho|]. exact (runWrites_own _ _ _ _ _ Hun Hrun Ho).
Qed.

(** X11. The refund reduction takes effect only when it is enabled after
    the access-list activator. On a table without shared operations,
    [enable2929] then [enable3529] leaves SSTORE and SELFDESTRUCT with the
    EIP-3529 gas functions (and SELFDESTRUCT with the constant gas 5000 that
    [enable2929] gave it); in the other order [enable2929] assigns last and
    both opcodes end with the EIP-2929 gas functions. The two pairs of
    functions differ. *)
Theorem refund_reduction_needs_order jt :
  unshared jt ->
  (forall jt', (enable2929;; enable3529) jt = Done tt jt' ->
     exists o s,
       descriptor jt' SSTORE = Some o /\ dynamicGas o = Some gasSStoreEIP3529
       /\ descriptor jt' SELFDESTRUCT = Some s
       /\ dynamicGas s = Some gasSelfdestructEIP3529
       /\ constantGas s = params.SelfdestructGasEIP150)
  /\ (forall jt', (enable3529;; enable2929) jt = Done tt jt' ->
        exists o s,
          descriptor jt' SSTORE = Some o /\ dynamicGas o = Some gasSStoreEIP2929
          /\ descriptor jt' SELFDESTRUCT = Some s
          /\ dynamicGas s = Some gasSelfdestructEIP2929
          /\ constantGas s = params.SelfdestructGasEIP150)
  /\ gasSStoreEIP2929 <> gasSStoreEIP3529
  /\ gasSelfdestructEIP2929 <> gasSelfdestructEIP3529.
Proof.
  intros Hun. split; [|split; [|split]].
  - intros jt' Hrun. rewrite enable2929_then_3529 in Hrun.
    destruct (runWrites_at _ _ _ SSTORE (DynamicGas gasSStoreEIP3529) Hun Hrun)
      as (o & _ & Ho); [unfold writes2929, writes3529; cbn [app]; in_list|].
    destruct (runWrites_at _ _ _ SELFDESTRUCT (DynamicGas gasSelfdestructEIP3529) Hun Hrun)
      as (s & _ & Hs); [unfold writes2929, writes3529; cbn [app]; in_list|].
    unfold writes2929, writes3529 in Ho, Hs. cbn [app] in Ho, Hs.
    revert Ho. filter_writes. intros Ho.
    revert Hs. filter_writes. intros Hs.
    eexists _, _. split; [exact Ho|]. split; [reflexivity|].
    split; [exact Hs|]. split; reflexivity.
  - intros jt' Hrun. rewrite enable3529_then_2929 in Hrun.
    destruct (runWrites_at _ _ _ SSTORE (DynamicGas gasSStoreEIP3529) Hun Hrun)
      as (o & _ & Ho); [unfold writes2929, writes3529; cbn [app]; in_list|].
    destruct (runWrites_at _ _ _ SELFDESTRUCT (DynamicGas gasSelfdestructEIP3529) Hun Hrun)
      as (s & _ & Hs); [unfold writes2929, writes3529; cbn [app]; in_list|].
    unfold writes2929, writes3529 in Ho, Hs. cbn [app] in Ho, Hs.
    revert Ho. filter_writes. intros Ho.
    revert Hs. filter_writes. intros Hs.
    eexists _, _. split; [exact Ho|]. split; [reflexivity|].
    split; [exact Hs|]. split; reflexivity.
  - intros Heq.
    pose proof (f_equal (fun g : gasFunc =>
                  g 0 (frameOf (slotDB 7 1 5 5 true 0) 7 10000 [1; 0] [])) Heq) as Hat.
    cbv beta in Hat.
    assert (H29 : gasSStoreEIP2929 0 (frameOf (slotDB 7 1 5 5 true 0) 7 10000 [1; 0] [])
                  = Done (2900, None) (frameOf (slotDB 7 1 5 5 true 15000) 7 10000 [1; 0] []))
      by reflexivity.
    assert (H35 : gasSStoreEIP3529 0 (frameOf (slotDB 7 1 5 5 true 0) 7 10000 [1; 0] [])
                  = Done (2900, None) (frameOf (slotDB 7 1 5 5 true 4800) 7 10000 [1; 0] []))
      by reflexivity.
    rewrite H29, H35 in Hat.
    apply (f_equal (fun r => match r with
                             | Done _ fr => refund (stateDB (evm fr))
                             | Panic _ => 0
                             end)) in Hat.
    discriminate Hat.
  - intros Heq.
    pose proof (f_equal (fun g : gasFunc => g 0 (frameOf emptyDB 7 10000 [9] [])) Heq) as Hat.
    cbv beta in Hat. unfold gasSelfdestructEIP2929, gasSelfdestructEIP3529 in Hat.
    rewrite (selfdestruct_gas true 0 (frameOf emptyDB 7 10000 [9] []) 9 [] eq_refl) in Hat.
    rewrite (selfdestruct_gas false 0 (frameOf emptyDB 7 10000 [9] []) 9 [] eq_refl) in Hat.
    apply (f_equal (fun r => match r with
                             | Done _ fr => refund (stateDB (evm fr))
                             | Panic _ => 0
                             end)) in Hat.
    discriminate Hat.
Qed.

(** X12. After [enable2929], on a table without shared operations, BALANCE,
    EXTCODESIZE and EXTCODEHASH have the warm read cost 100 as constant gas
    and [gasEip2929AccountCheck] as dynamic gas, and the two together charge
    100 for an address in the access list and the cold account access cost
    2600 for one that is not. *)
Theorem account_access_total jt jt' op :
  unshared jt -> enable2929 jt = Done tt jt' ->
  op ∈ [BALANCE; EXTCODESIZE; EXTCODEHASH] ->
  exists o,
    descriptor jt' op = Some o
    /\ constantGas o = params.WarmStorageReadCostEIP2929
    /\ dynamicGas o = Some gasEip2929AccountCheck
    /\ forall memorySize fr w rest, Stack fr = w :: rest ->
         exists gas fr',
           gasEip2929AccountCheck memorySize fr = Done (gas, None) fr'
           /\ constantGas o + gas
              = if statedb.AddressInAccessList (uint256.Bytes20 w) (stateDB (evm fr))
                then params.WarmStorageReadCostEIP2929
                else params.ColdAccountAccessCostEIP2929.
Proof.
  intros Hun Hrun Hop. rewrite enable2929_writes in Hrun.
  assert (Hcheck : forall memorySize fr w rest, Stack fr = w :: rest ->
            exists gas fr',
              gasEip2929AccountCheck memorySize fr = Done (gas, None) fr'
              /\ params.WarmStorageReadCostEIP2929 + gas
                 = if statedb.AddressInAccessList (uint256.Bytes20 w) (stateDB (evm fr))
                   then params.WarmStorageReadCostEIP2929
                   else params.ColdAccountAccessCostEIP2929).
  { intros memorySize [[db ? ? ?] [a g] st m] w rest Hst. cbn in Hst. subst st.
    unfold gasEip2929AccountCheck. run. cbn.
    destruct (statedb.AddressInAccessList (uint256.Bytes20 w) db); cbn;
      eexists _, _; (split; [reflexivity|reflexivity]). }
  assert (Hcases : op = BALANCE \/ op = EXTCODESIZE \/ op = EXTCODEHASH).
  { revert Hop. rewrite !elem_of_cons, elem_of_nil. tauto. }
  destruct (runWrites_at _ _ _ op (DynamicGas gasEip2929AccountCheck) Hun Hrun)
    as (o & _ & Ho).
  { unfold writes2929. destruct Hcases as [->|[->| ->]]; in_list. }
  destruct Hcases as [->|[->| ->]].
  all: unfold writes2929 in Ho; revert Ho; filter_writes; intros Ho;
    eexists; split; [exact Ho|]; split; [reflexivity|]; split; [reflexivity|];
    exact Hcheck.
Qed.
End ActivationOrder.

Lemma baseTable_resolvable (legacy : LegacyGas) :
  resolvable (writes2929 ++ writes3529) baseTable.
Proof.
  unfold writes2929, writes3529. cbn [app].
  repeat (apply Forall_cons; split;
          [eexists; split; [reflexivity|eexists; reflexivity]|]).
  apply Forall_nil. exact I.
Qed.

(** The two activators in the intended order on a table that holds the
    eleven opcodes. *)
Lemma refund_reduction_needs_order_witness :
  exists jt',
    (@enable2929 flatLegacy;; enable3529) baseTable = Done tt jt'
    /\ exists o, descriptor jt' SSTORE = Some o /\ dynamicGas o = Some gasSStoreEIP3529.
Proof.
  destruct (resolvable_runWrites _ _ (baseTable_resolvable flatLegacy)) as [jt' Hrun].
  rewrite <- (@enable2929_then_3529 flatLegacy) in Hrun.
  exists jt'. split; [exact Hrun|].
  destruct (@refund_reduction_needs_order flatLegacy baseTable (tableOf_unshared _))
    as (Hord & _).
  destruct (Hord jt' Hrun) as (o & s & Ho & Hg & _).
  exists o. split; [exact Ho|exact Hg].
Defined.

(** BALANCE after the access-list activator, for the cold address 9. *)
Lemma account_access_total_witness :
  exists jt' o,
    @enable2929 flatLegacy baseTable = Done tt jt'
    /\ descriptor jt' BALANCE = Some o
    /\ exists gas fr',
         gasEip2929AccountCheck 0 (frameOf emptyDB 7 10000 [9] []) = Done (gas, None) fr'
         /\ constantGas o + gas = 2600.
Proof.
  assert (Hres : resolvable (@writes2929 flatLegacy) baseTable).
  { pose proof (baseTable_resolvable flatLegacy) as Hall.
    apply Forall_app in Hall. exact (proj1 Hall). }
  destruct (resolvable_runWrites _ _ Hres) as [jt' Hrun].
  rewrite <- (@enable2929_writes flatLegacy) in Hrun.
  destruct (@account_access_total flatLegacy baseTable jt' BALANCE (tableOf_unshared _) Hrun)
    as (o & Ho & _ & _ & Hsum); [in_list|].
  exists jt', o. split; [exact Hrun|]. split; [exact Ho|].
  destruct (Hsum 0 (frameOf emptyDB 7 10000 [9] []) 9 [] eq_refl) as (gas & fr' & Hg & Hs).
  exists gas, fr'. split; [exact Hg|]. rewrite Hs. reflexivity.
Defined.

(** ** The installed operations and their stack bounds *)

Lemma opMCopy_stack fr r fr' :
  opMCopy fr = Done r fr' ->
  exists w0 w1 w2, Stack fr = w0 :: w1 :: w2 :: Stack fr'.
Proof.
  destruct fr as [e c st m].
  destruct st as [|w0 [|w1 [|w2 rest]]]; unfold opMCopy; run; cbn; try discriminate.
  intros Hrun. exists w0, w1, w2. f_equal. f_equal. f_equal. revert Hrun.
  destruct (uint256.Uint64 w0 =? 0); [intros [= _ <-]; reflexivity|].
  unfold Memory_Resize, Memory_GetPtr, Memory_Set. cbn.
  repeat match goal with
         | |- context [if ?b then _ else _] => destruct b; cbn
         end;
    try discriminate; intros [= _ <-]; reflexivity.
Qed.

Lemma opMCopy_underflow fr :
  (length (Stack fr) < 3)%nat -> opMCopy fr = Panic "index out of range".
Proof.
  destruct fr as [e c st m]. cbn.
  destruct st as [|w0 [|w1 [|w2 rest]]]; cbn; intros Hlen; try lia; reflexivity.
Qed.

Section InstalledOperations.
Context `{LegacyGas}.

(** X13. The stack bounds that the activators declare for the operations
    they install are those of the execute functions. An installed execute
    function that returns has popped [minStack] words and pushed
    [StackLimit + minStack - maxStack] words, leaving the words below as
    they were; so from a stack of at most [maxStack] words it leaves at most
    [StackLimit]. MCOPY panics on a stack of fewer than [minStack] words.
    PUSH0 and SELFBALANCE return on every frame, without error and with one
    word pushed. CHAINID and BASEFEE do so when the chain id, respectively
    the base fee, is set, pushing its low 256 bits; when it is nil they
    panic on the nil pointer that [uint256.FromBig] hands to [Push]. *)
Theorem installed_ops_stack_effect name ws op o f fr :
  (name, (ws, Some (op, o))) ∈ shapes ->
  execute o = Some f ->
  (forall r fr', f fr = Done r fr' ->
     exists new,
       Stack fr' = new ++ drop (Z.to_nat (minStack o)) (Stack fr)
       /\ Z.of_nat (length new) = params.StackLimit + minStack o - maxStack o
       /\ minStack o <= Z.of_nat (length (Stack fr))
       /\ (Z.of_nat (length (Stack fr)) <= maxStack o ->
           Z.of_nat (length (Stack fr')) <= params.StackLimit))
  /\ (Z.of_nat (length (Stack fr)) < minStack o -> f fr = Panic "index out of range")
  /\ (op = PUSH0 \/ op = SELFBALANCE ->
      exists w, f fr = Done ([], None) (setStack (w :: Stack fr) fr))
  /\ (op = CHAINID ->
      f fr = match ChainID (evm fr) with
             | Some chainId =>
                 Done ([], None) (setStack (chainId mod 2 ^ 256 :: Stack fr) fr)
             | None => Panic "invalid memory address or nil pointer dereference"
             end)
  /\ (op = BASEFEE ->
      f fr = match BaseFee (evm fr) with
             | Some baseFee =>
                 Done ([], None) (setStack (baseFee mod 2 ^ 256 :: Stack fr) fr)
             | None => Panic "invalid memory address or nil pointer dereference"
             end).
Proof.
  intros Hin Hex. unfold shapes in Hin.
  assert (Hpush : (exists w, f fr = Done ([], None) (setStack (w :: Stack fr) fr))
                  \/ (exists msg, f fr = Panic msg) ->
            minStack o = 0 -> maxStack o = params.StackLimit - 1 ->
            (forall r fr', f fr = Done r fr' ->
               exists new,
                 Stack fr' = new ++ drop (Z.to_nat (minStack o)) (Stack fr)
                 /\ Z.of_nat (length new) = params.StackLimit + minStack o - maxStack o
                 /\ minStack o <= Z.of_nat (length (Stack fr))
                 /\ (Z.of_nat (length (Stack fr)) <= maxStack o ->
                     Z.of_nat (length (Stack fr')) <= params.StackLimit))
            /\ (Z.of_nat (length (Stack fr)) < minStack o ->
                f fr = Panic "index out of range")).
  { intros Hf Hmin Hmax. split.
    - intros r fr' Hrun. destruct Hf as [[w Hf]|[msg Hf]]; rewrite Hf in Hrun;
        [|discriminate].
      injection Hrun as _ <-.
      exists [w]. rewrite Hmin, Hmax. destruct fr as [e c st m]. cbn.
      split; [reflexivity|]. split; [lia|]. split; lia.
    - rewrite Hmin. lia. }
  assert (Hchain : opChainID fr
                   = match ChainID (evm fr) with
                     | Some chainId =>
                         Done ([], None) (setStack (chainId mod 2 ^ 256 :: Stack fr) fr)
                     | None => Panic "invalid memory address or nil pointer dereference"
                     end).
  { destruct fr as [[db cgt [chainId|] bf] c st m]; reflexivity. }
  assert (Hbase : opBaseFee fr
                  = match BaseFee (evm fr) with
                    | Some baseFee =>
                        Done ([], None) (setStack (baseFee mod 2 ^ 256 :: Stack fr) fr)
                    | None => Panic "invalid memory address or nil pointer dereference"
                    end).
  { destruct fr as [[db cgt cid [baseFee|]] c st m]; reflexivity. }
  repeat (apply elem_of_cons in Hin as [Heq|Hin];
          [first [discriminate Heq | injection Heq as _ _ -> ->]|]);
    [| | | | |apply elem_of_nil in Hin; contradiction].
  - (* MCOPY *)
    injection Hex as <-. split; [|split; [|split; [|split]]].
    + intros r fr' Hrun. destruct (opMCopy_stack _ _ _ Hrun) as (w0 & w1 & w2 & Hst).
      exists []. rewrite Hst. cbn.
      split; [reflexivity|]. split; [reflexivity|].
      unfold minStack_, maxStack_, params.StackLimit. split; lia.
    + cbn. unfold minStack_. intros Hlen. apply opMCopy_underflow. lia.
    + intros [Hop|Hop]; discriminate Hop.
    + intros Hop. discriminate Hop.
    + intros Hop. discriminate Hop.
  - (* PUSH0 *)
    injection Hex as <-.
    assert (Hf : opPush0 fr = Done ([], None) (setStack (0 :: Stack fr) fr)) by reflexivity.
    destruct Hpush as [H1 H2]; [left; eauto|reflexivity|reflexivity|].
    split; [exact H1|]. split; [exact H2|]. split; [intros _; eauto|].
    split; intros Hop; discriminate Hop.
  - (* BASEFEE *)
    injection Hex as <-.
    destruct Hpush as [H1 H2]; [|reflexivity|reflexivity|].
    { rewrite Hbase. destruct (BaseFee (evm fr)); [left|right]; eauto. }
    split; [exact H1|]. split; [exact H2|].
    split; [intros [Hop|Hop]; discriminate Hop|].
    split; [intros Hop; discriminate Hop|]. intros _. exact Hbase.
  - (* SELFBALANCE *)
    injection Hex as <-.
    assert (Hf : opSelfBalance fr
                 = Done ([], None)
                     (setStack (statedb.GetBalance (self (contract fr)) (stateDB (evm fr))
                                  mod 2 ^ 256 :: Stack fr) fr)) by reflexivity.
    destruct Hpush as [H1 H2]; [left; eauto|reflexivity|reflexivity|].
    split; [exact H1|]. split; [exact H2|]. split; [intros _; eauto|].
    split; intros Hop; discriminate Hop.
  - (* CHAINID *)
    injection Hex as <-.
    destruct Hpush as [H1 H2]; [|reflexivity|reflexivity|].
    { rewrite Hchain. destruct (ChainID (evm fr)); [left|right]; eauto. }
    split; [exact H1|]. split; [exact H2|].
    split; [intros [Hop|Hop]; discriminate Hop|].
    split; [intros _; exact Hchain|]. intros Hop. discriminate Hop.
Qed.
End InstalledOperations.

(** PUSH0 on a stack of two words is within its bounds; MCOPY on two words
    is not; BASEFEE without a base fee panics. *)
Lemma installed_ops_stack_effect_witness :
  (exists w, opPush0 (frameOf emptyDB 7 10 [1; 2] [])
             = Done ([], None) (setStack (w :: [1; 2]) (frameOf emptyDB 7 10 [1; 2] [])))
  /\ opMCopy (frameOf emptyDB 7 10 [1; 2] []) = Panic "index out of range"
  /\ opBaseFee (mkFrame (mkEVM emptyDB 0 (Some 1) None) (mkContract 7 10) [1; 2]
                  (mkMemory [] 0))
     = Panic "invalid memory address or nil pointer dereference".
Proof.
  split; [|split].
  - apply (@installed_ops_stack_effect flatLegacy "ethereum_3855" [] PUSH0
             (newOp opPush0 GasQuickStep None 0 1) opPush0
             (frameOf emptyDB 7 10 [1; 2] [])).
    + unfold shapes. apply list_elem_of_further, list_elem_of_here.
    + reflexivity.
    + left. reflexivity.
  - apply (@installed_ops_stack_effect flatLegacy "ethereum_5656" [] MCOPY
             (newOp opMCopy 0 (Some gasMCopy) 3 0) opMCopy
             (frameOf emptyDB 7 10 [1; 2] [])).
    + unfold shapes. apply list_elem_of_here.
    + reflexivity.
    + cbn. unfold minStack_. lia.
  - apply (@installed_ops_stack_effect flatLegacy "ethereum_3198" [] BASEFEE
             (newOp opBaseFee GasQuickStep None 0 1) opBaseFee
             (mkFrame (mkEVM emptyDB 0 (Some 1) None) (mkContract 7 10) [1; 2]
                (mkMemory [] 0))).
    + unfold shapes. do 3 apply list_elem_of_further. apply list_elem_of_here.
    + reflexivity.
    + reflexivity.
Defined.

(** ** The registered names *)

Ltac by_decide :=
  match goal with |- ?P => apply (bool_decide_unpack P); vm_compute; exact I end.

Lemma ascii_compare_refl c : Ascii.compare c c = Eq.
Proof. unfold Ascii.compare. apply N.compare_refl. Qed.

Lemma ascii_compare_lt_trans a b c :
  Ascii.compare a b = Lt -> Ascii.compare b c = Lt -> Ascii.compare a c = Lt.
Proof.
  unfold Ascii.compare. rewrite !N.compare_lt_iff. apply N.lt_trans.
Qed.

Lemma string_leb_trans a b c :
  String.leb a b = true -> String.leb b c = true -> String.leb a c = true.
Proof.
  unfold String.leb. revert b c.
  induction a as [|x a IH]; intros [|y b] [|z c]; cbn; try congruence.
  destruct (Ascii.compare x y) eqn:Exy; [| |discriminate];
    (destruct (Ascii.compare y z) eqn:Eyz; [| |discriminate]).
  - apply Ascii.compare_eq_iff in Exy, Eyz. subst. rewrite ascii_compare_refl. apply IH.
  - apply Ascii.compare_eq_iff in Exy. subst. rewrite Eyz. reflexivity.
  - apply Ascii.compare_eq_iff in Eyz. subst. rewrite Exy. reflexivity.
  - rewrite (ascii_compare_lt_trans _ _ _ Exy Eyz). reflexivity.
Qed.

#[local] Instance bytes_le_trans : Transitive bytes_le.
Proof. intros a b c. apply string_leb_trans. Qed.

#[local] Instance bytes_le_antisym : AntiSymm eq bytes_le.
Proof. intros a b. apply String.leb_antisym. Qed.

#[local] Instance bytes_le_total : Total bytes_le.
Proof. intros a b. apply String.leb_total. Qed.

Lemma foldl_append {A} (l acc : list A) :
  foldl (fun names k => names ++ [k]) acc l = acc ++ l.
Proof.
  revert acc. induction l as [|x l IH]; intros acc; cbn.
  - rewrite app_nil_r. reflexivity.
  - rewrite IH, <- app_assoc. reflexivity.
Qed.

Lemma registeredNames_sorted : Sorted bytes_le registeredNames.
Proof.
  unfold registeredNames.
  repeat (apply Sorted_cons; [|first [apply HdRel_nil | apply HdRel_cons; reflexivity]]).
  apply Sorted_nil.
Qed.

Section RegisteredNames.
Context `{LegacyGas}.

Lemma activators_keys : (map_to_list activators).*1 ≡ₚ registeredNames.
Proof.
  unfold activators. rewrite map_to_list_to_map.
  - cbn [fmap list_fmap fst]. unfold registeredNames.
    apply NoDup_Permutation.
    + by_decide.
    + by_decide.
    + intros x. rewrite !elem_of_cons, !elem_of_nil. tauto.
  - cbn [fmap list_fmap fst]. by_decide.
Qed.

Lemma registered_iff name :
  ExistsEipActivator name = true <-> name ∈ registeredNames.
Proof.
  unfold ExistsEipActivator. rewrite bool_decide_eq_true.
  rewrite <- elem_of_dom. unfold activators. rewrite dom_list_to_map_L.
  rewrite elem_of_list_to_set. cbn [fmap list_fmap fst]. unfold registeredNames.
  rewrite !elem_of_cons, !elem_of_nil. tauto.
Qed.

(** X14. Whatever the order in which the map of activators is ranged
    over, [ActivateableEips] returns the same slice: the eight registered
    names in increasing order, which are exactly the names that
    [ExistsEipActivator] accepts. *)
Theorem ActivateableEips_sorted (order : list string) :
  order ≡ₚ (map_to_list activators).*1 ->
  ActivateableEips order = registeredNames
  /\ Sorted bytes_le (ActivateableEips order)
  /\ forall name, name ∈ ActivateableEips order <-> ExistsEipActivator name = true.
Proof.
  intros Hperm.
  assert (Hres : ActivateableEips order = registeredNames).
  { unfold ActivateableEips.
    assert (Hsize : size activators = 8%nat).
    { rewrite <- length_map_to_list, <- (length_fmap fst (map_to_list activators)).
      rewrite activators_keys. reflexivity. }
    rewrite Hsize. cbn [Nat.ltb Nat.leb]. rewrite foldl_append. cbn [app].
    unfold sort_Strings.
    apply (Sorted_unique bytes_le).
    - apply Sorted_merge_sort. apply _.
    - apply registeredNames_sorted.
    - rewrite merge_sort_Permutation, Hperm. apply activators_keys. }
  split; [exact Hres|]. rewrite Hres. split; [apply registeredNames_sorted|].
  intros name. symmetry. apply registered_iff.
Qed.

(** X15. The registry and the name check agree: every name that has an
    activator passes [ValidateEIPName]; and [EnableEIP] returns an error
    value exactly for the names that [ExistsEipActivator] rejects, leaving
    the table as it was. *)
Theorem registered_names_valid (name : string) (jt : JumpTable) :
  (ExistsEipActivator name = true -> ValidateEIPName name = None)
  /\ ((exists e jt', EnableEIP name jt = Done (Some e) jt')
      <-> ExistsEipActivator name = false)
  /\ (ExistsEipActivator name = false ->
      EnableEIP name jt = Done (Some (errorString ("undefined eip " ++ name))) jt).
Proof.
  split; [|split].
  - rewrite registered_iff. unfold registeredNames.
    rewrite !elem_of_cons, elem_of_nil.
    intros [->|[->|[->|[->|[->|[->|[->|[->|[]]]]]]]]]; vm_compute; reflexivity.
  - unfold ExistsEipActivator, EnableEIP.
    destruct (activators !! name) as [enablerFn|] eqn:Elook.
    + rewrite bool_decide_eq_true_2 by eauto. split; [|discriminate].
      intros (e & jt' & Hrun). unfold mbind, mret, St_bind, St_ret in Hrun.
      destruct (enablerFn jt); discriminate.
    + rewrite bool_decide_eq_false_2 by (intros [? ?]; discriminate).
      split; [reflexivity|]. intros _. eexists _, _. reflexivity.
  - unfold ExistsEipActivator, EnableEIP. intros Hno.
    apply bool_decide_eq_false in Hno.
    destruct (activators !! name) as [enablerFn|]; [exfalso; apply Hno; eauto|].
    reflexivity.
Qed.
End RegisteredNames.

(** The map ranged over in the order of its declaration. *)
Lemma ActivateableEips_sorted_witness :
  @ActivateableEips flatLegacy
    [ "ethereum_5656"; "ethereum_3855"; "ethereum_3529"; "ethereum_3198";
      "ethereum_2929"; "ethereum_2200"; "ethereum_1884"; "ethereum_1344" ]%string
  = registeredNames.
Proof.
  apply (@ActivateableEips_sorted flatLegacy).
  rewrite (@activators_keys flatLegacy). unfold registeredNames.
  apply NoDup_Permutation.
  - by_decide.
  - by_decide.
  - intros x. rewrite !elem_of_cons, !elem_of_nil. tauto.
Defined.

(** A registered name and one that is not. *)
Lemma registered_names_valid_witness :
  ValidateEIPName "ethereum_5656" = None
  /\ @EnableEIP flatLegacy "ethereum_9999" baseTable
     = Done (Some (errorString "undefined eip ethereum_9999")) baseTable.
Proof.
  split.
  - apply (@registered_names_valid flatLegacy "ethereum_5656" baseTable). reflexivity.
  - apply (@registered_names_valid flatLegacy "ethereum_9999" baseTable). reflexivity.
Defined.

(** * The v9 upgrade *)

Lemma found_spec eips : v9.found eips = true <-> v9.newEIP ∈ eips.
Proof.
  induction eips as [|eip eips IH]; cbn.
  - rewrite elem_of_nil. split; [discriminate|contradiction].
  - rewrite elem_of_cons. destruct (String.eqb_spec eip v9.newEIP) as [->|Hne].
    + split; [left; reflexivity|reflexivity].
    + rewrite IH. split; [right; assumption|]. intros [Heq|Hin]; [congruence|exact Hin].
Qed.

Section Migration.
Context {Other Bytes : Type} `{v9.Collaborators Other Bytes}.

(** The codec reads back what it wrote. *)
Hypothesis round_trip : forall p, v9.MustUnmarshal (v9.MustMarshal p) = Some p.

(** X16. [MigrateStore] of the v9 upgrade. Without stored parameters it
    returns "evm parameters not found"; whenever it returns an error the
    store is as it was. When it returns without error, only the value under
    the parameters key has changed: it encodes validated parameters whose
    other fields are the stored ones and whose extra EIPs are the stored
    list, with "ethereum_5656" added at the end if it was not in it; and a
    second run on the new store returns without error and changes
    nothing. *)
Theorem MigrateStore_effect (store : v9.KVStore) :
  (store !! v9.KeyPrefixParams = None ->
   v9.MigrateStore store = Done (Some (errorString "evm parameters not found")) store)
  /\ (forall e store', v9.MigrateStore store = Done (Some e) store' -> store' = store)
  /\ (forall store', v9.MigrateStore store = Done None store' ->
        exists bz p p',
          store !! v9.KeyPrefixParams = Some bz
          /\ v9.MustUnmarshal bz = Some p
          /\ store' = <[v9.KeyPrefixParams := v9.MustMarshal p']> store
          /\ v9.Validate p' = None
          /\ v9.otherFields p' = v9.otherFields p
          /\ v9.ExtraEIPs p'
             = (if bool_decide (v9.newEIP ∈ v9.ExtraEIPs p)
                then v9.ExtraEIPs p else v9.ExtraEIPs p ++ [v9.newEIP])
          /\ v9.newEIP ∈ v9.ExtraEIPs p'
          /\ v9.MigrateStore store' = Done None store').
Proof.
  unfold v9.MigrateStore, mbind, mret, St_bind, St_ret, gets, modify, panic.
  unfold v9.KVStore in *. split; [|split].
  - intros ->. reflexivity.
  - intros e store'.
    destruct (store !! v9.KeyPrefixParams) as [bz|]; [|intros [= _ <-]; reflexivity].
    destruct (v9.MustUnmarshal bz) as [p|]; [|discriminate].
    destruct (v9.Validate _); [intros [= _ <-]; reflexivity|discriminate].
  - intros store'.
    destruct (store !! v9.KeyPrefixParams) as [bz|] eqn:Eget; [|discriminate].
    destruct (v9.MustUnmarshal bz) as [p|] eqn:Edec; [|discriminate].
    set (p' := if negb (v9.found (v9.ExtraEIPs p))
               then v9.mkParams (v9.ExtraEIPs p ++ [v9.newEIP]) (v9.otherFields p)
               else p).
    destruct (v9.Validate p') as [err|] eqn:Eval; [discriminate|].
    intros [= <-]. exists bz, p, p'.
    assert (Hin : v9.newEIP ∈ v9.ExtraEIPs p').
    { subst p'. destruct (v9.found (v9.ExtraEIPs p)) eqn:Ef; cbn.
      - apply found_spec, Ef.
      - apply elem_of_app. right. apply list_elem_of_here. }
    split; [reflexivity|]. split; [exact Edec|]. split; [reflexivity|].
    split; [exact Eval|]. split; [subst p'; destruct (v9.found _); reflexivity|].
    split; [|split; [exact Hin|]].
    + subst p'. destruct (v9.found (v9.ExtraEIPs p)) eqn:Ef; cbn.
      * rewrite bool_decide_eq_true_2 by (apply found_spec, Ef). reflexivity.
      * rewrite bool_decide_eq_false_2; [reflexivity|].
        intros Hc. apply found_spec in Hc. congruence.
    + rewrite lookup_insert_eq, round_trip.
      rewrite (proj2 (found_spec _) Hin). cbn [negb]. rewrite Eval.
      rewrite insert_insert_eq. reflexivity.
Qed.
End Migration.

(** The migration of [storeV8], and a second run. *)
Lemma MigrateStore_effect_witness :
  @v9.MigrateStore unit _ plainCollaborators storeV8 = Done None storeV9
  /\ @v9.MigrateStore unit _ plainCollaborators storeV9 = Done None storeV9.
Proof.
  assert (Hrun : @v9.MigrateStore unit _ plainCollaborators storeV8 = Done None storeV9).
  { unfold v9.MigrateStore, mbind, mret, St_bind, St_ret, gets, modify, panic.
    unfold storeV9, storeV8, v9.KVStore. cbn [v9.KeyPrefixParams plainCollaborators].
    rewrite lookup_singleton_eq. reflexivity. }
  split; [exact Hrun|].
  destruct (@MigrateStore_effect unit _ plainCollaborators (fun p => eq_refl) storeV8)
    as (_ & _ & Hok).
  destruct (Hok storeV9 Hrun) as (bz & p & p' & _ & _ & _ & _ & _ & _ & _ & Hagain).
  exact Hagain.
Defined.
